(** * awesome-typed-sass-modules: the orchestration layer of [src/cli.js]

    A shallow embedding of the command line driver: the renderer adapter
    [readSass], the per-file promise chain [createTypings], the two
    accounting closures [createTypingsForFiles] and
    [createTypingsForFileOnWatch], and the mode selection of [main].

    The modules that cli.js imports (node-sass, typed-css-modules, chalk,
    glob, chokidar, fs, path, the console) are not part of the repository;
    they are collected in the interface [Externals] and every result below
    holds for all of their implementations.

    Promises are modelled by their event-loop turns.  A promise chain is a
    small state machine ([Task]); one call of [task_step] is one callback of
    the chain run to completion, which is the unit of interleaving of the
    single-threaded event loop.  A batch or a watch session is a list of such
    tasks advanced in an order chosen by a schedule. *)

From stdpp Require Import base list strings pretty.

Set Default Proof Using "Type".

(** ** Values exchanged with the collaborators *)

(** The string ["\n"]. *)
Definition nl : string := String (Ascii.ascii_of_nat 10) EmptyString.

(** What [readSass] resolves to: [result.css.toString()], or the empty array
    [[]] of the suppression branch. *)
Inductive Content :=
| Css (css : string)
| EmptySeq.

(** The object the last [then] of [createTypings] receives from
    [c.writeFile()]: only [outputFilePath] and [messageList] are read.
    A missing (or null) [messageList] is [None]. *)
Record Artifact := {
  outputFilePath : string;
  messageList : option (list string)
}.

(** The options handed to [new DtsCreator(...)] (cli.js 197-203); the creator
    object is identified with them. *)
Record Creator := {
  rootDir : string;
  searchDir : string;
  outDir : option string;
  camelCase : bool;
  dropExtension : bool
}.

(** [argv] as yargs delivers it (cli.js 130-171).  [inputDir] is [None] when
    it is [undefined]; [o] and [i] have no default. *)
Record Argv := {
  argv_h : bool;
  argv_inputDir : option string;
  argv_c : bool;
  argv_o : option string;
  argv_p : string;
  argv_w : bool;
  argv_d : bool;
  argv_v : bool;
  argv_i : option string
}.

Inductive Level := Info | Warn | Error.

(** The closure variables [warnings] and [errors] of one accounting cycle
    (cli.js 64-65 and 88-89). *)
Record Counters := {
  warnings : nat;
  errors : nat
}.

(** ** The imported modules *)

Class Externals := {
  (** everything outside cli.js that changes over time: the file system, the
      preprocessor, the caches of the generation engine *)
  World : Type;
  (** values used as rejection reasons *)
  Reason : Type;
  (** the object [creator.create] resolves to *)
  Draft : Type;
  (** [`${reason}`] *)
  reason_toString : Reason → string;
  chalk_red : string → string;
  chalk_yellow : string → string;
  chalk_green : string → string;
  (** [sass.render({...sassConfig, file, importer}, callback)]: what the
      callback receives, [err] or [result.css.toString()] *)
  sass_render : string → World → (Reason + string) * World;
  (** [creator.create(pathName, content, cache)] *)
  creator_create :
    Creator → string → Content → bool → World → (Reason + Draft) * World;
  (** [c.writeFile()] *)
  draft_writeFile : Draft → World → (Reason + Artifact) * World;
  fs_existsSync : string → World → bool;
  process_cwd : World → string;
  (** [path.join(searchDir, argv.p).trim().replace(/\\/g, '/')] *)
  files_pattern : string → string → string;
  (** [glob(pattern, options, callback)]: the callback's [(err, pathNames)];
      the only option cli.js sets is [ignore] *)
  glob_expand :
    string → option string → World →
    (option Reason * option (list string)) * World
}.

Section Model.
Context `{Externals}.

(** ** Observable behaviour *)

(** What is written to the console: a string, or an error object
    ([console.error(err)], cli.js 211). *)
Inductive ConsoleArg :=
| Text (s : string)
| Obj (r : Reason).

(** Calls that leave cli.js, in the order they are made. *)
Inductive Call :=
| CSassRender (file : string)
| CCreate (creator : Creator) (pathName : string) (content : Content)
    (cache : bool)
| CWriteFile (c : Draft)
| CHandleError (message : string)
| CHandleWarning (message : string)
| CShowHelp
| CGlob (pattern : string) (ignore : option string)
| CWatch (pattern : string) (ignored : option string).

(** What callbacks passed into [createTypings] can reach. *)
Record Env := {
  world : World;
  console : list (Level * ConsoleArg);
  cycles : list Counters
}.

Record State := {
  env : Env;
  calls : list Call
}.

(** A callback body: it returns normally or throws. *)
Definition M (A : Type) : Type := State → (Reason + A) * State.

Definition ret {A} (a : A) : M A := λ s, (inr a, s).

Definition bind {A B} (m : M A) (k : A → M B) : M B :=
  λ s, match m s with
       | (inr a, s') => k a s'
       | (inl r, s') => (inl r, s')
       end.

(** [handleError] and [handleWarning] as [createTypings] sees them. *)
Definition Handler : Type := string → Env → (Reason + unit) * Env.

Local Notation "x ←! m ; k" := (bind m (λ x, k))
  (at level 20, m at level 100, k at level 200, right associativity,
   only parsing).
Local Notation "m ;;! k" := (bind m (λ _, k))
  (at level 100, k at level 200, right associativity, only parsing).

Definition set_world (w : World) (e : Env) : Env :=
  {| world := w; console := console e; cycles := cycles e |}.

Definition set_cycles (cs : list Counters) (e : Env) : Env :=
  {| world := world e; console := console e; cycles := cs |}.

Definition print (lvl : Level) (a : ConsoleArg) (e : Env) : Env :=
  {| world := world e; console := console e ++ [(lvl, a)];
     cycles := cycles e |}.

Definition set_env (e : Env) (s : State) : State :=
  {| env := e; calls := calls s |}.

Definition record (c : Call) (s : State) : State :=
  {| env := env s; calls := calls s ++ [c] |}.

Definition log_call (c : Call) : M unit := λ s, (inr (), record c s).

Definition console_log (lvl : Level) (a : ConsoleArg) : M unit :=
  λ s, (inr (), set_env (print lvl a (env s)) s).

(** A call into an imported module. *)
Definition ext {A} (op : World → (Reason + A) * World) : M A :=
  λ s, let '(r, w) := op (world (env s)) in
       (r, set_env (set_world w (env s)) s).

(** A call of a callback: the call is recorded, then its body runs. *)
Definition invoke (tag : string → Call) (h : Handler) (message : string)
  : M unit :=
  λ s, let '(r, e) := h message (env s) in
       (r, set_env e (record (tag message) s)).

(** [Array.prototype.forEach]. *)
Fixpoint forEach {A} (l : list A) (f : A → M unit) : M unit :=
  match l with
  | [] => ret ()
  | x :: l' => f x ;;! forEach l' f
  end.

(** ** Renderer adapter: [readSass] (cli.js 21-35) *)

(** JavaScript truthiness of an optional string argument: [undefined] and
    the empty string are falsy. *)
Definition truthy (x : option string) : bool :=
  match x with
  | Some s => negb (String.eqb s "")
  | None => false
  end.

(** [relativeTo === '/'] *)
Definition is_root (relativeTo : option string) : bool :=
  match relativeTo with
  | Some s => String.eqb s "/"
  | None => false
  end.

(** How the promise of [readSass] is settled by the callback.  [Uncaught] is
    the fall-through to [result.css] when [result] is undefined: the callback
    throws outside of any promise and the promise stays pending. *)
Inductive Settle :=
| Resolve (content : Content)
| Reject (err : Reason)
| Uncaught.

(** The callback handed to [sass.render] (cli.js 25-32). *)
Definition readSass_callback (relativeTo : option string)
    (outcome : Reason + string) : Settle :=
  match outcome with
  | inl err =>
      if truthy relativeTo && negb (is_root relativeTo) then
        Resolve EmptySeq
      else if negb (truthy relativeTo) || is_root relativeTo then
        Reject err
      else Uncaught
  | inr css => Resolve (Css css)
  end.

(** The synchronous part of [readSass]: [sass.render] is called. *)
Definition readSass_start (pathName : string) (s : State) : State :=
  record (CSassRender pathName) s.

(** The turn in which the preprocessor calls back. *)
Definition readSass_settle (pathName : string) (relativeTo : option string)
    (s : State) : Settle * State :=
  let '(outcome, w) := sass_render pathName (world (env s)) in
  (readSass_callback relativeTo outcome, set_env (set_world w (env s)) s).

Definition readSass (pathName : string) (relativeTo : option string)
    (s : State) : Settle * State :=
  readSass_settle pathName relativeTo (readSass_start pathName s).

(** ** Typing pipeline: [createTypings] (cli.js 37-61) *)

Section CreateTypings.
Variables (pathName : string) (creator : Creator) (cache : bool)
  (handleError handleWarning : Handler) (verbose : bool).

(** [content => creator.create(pathName, content, cache)] (line 39) *)
Definition then_create (content : Content) : M Draft :=
  log_call (CCreate creator pathName content cache) ;;!
  ext (creator_create creator pathName content cache).

(** [c => c.writeFile()] (line 40) *)
Definition then_writeFile (c : Draft) : M Artifact :=
  log_call (CWriteFile c) ;;!
  ext (draft_writeFile c).

(** The third [then] (lines 41-55). *)
Definition then_report (c : Artifact) : M Artifact :=
  (if verbose then
     console_log Info (Text ("Created " +:+ chalk_green (outputFilePath c)))
   else ret ()) ;;!
  match messageList c with
  | Some l =>
      forEach l (λ message,
        let warningTitle := chalk_yellow ("WARNING: " +:+ pathName) in
        let warningInfo := message in
        invoke CHandleWarning handleWarning
          (warningTitle +:+ nl +:+ warningInfo))
  | None => ret ()
  end ;;!
  ret c.

(** The [catch] (lines 56-60). *)
Definition catch_report (reason : Reason) : M unit :=
  let errorTitle := chalk_red ("ERROR: " +:+ pathName) in
  let errorInfo := reason_toString reason in
  invoke CHandleError handleError (errorTitle +:+ nl +:+ errorInfo).

(** The promise chain between two turns of the event loop.  A rejection
    skips the remaining [then]s and waits for the [catch]. *)
Inductive Task :=
| AwaitRender
| AwaitCreate (content : Content)
| AwaitWrite (c : Draft)
| AwaitReport (c : Artifact)
| AwaitCatch (reason : Reason)
| Resolved (value : option Artifact)
| Rejected (reason : Reason)
| Hung.

(** One turn: the next callback of the chain runs to completion. *)
Definition task_step (t : Task) (s : State) : Task * State :=
  match t with
  | AwaitRender =>
      match readSass_settle pathName None s with
      | (Resolve content, s') => (AwaitCreate content, s')
      | (Reject err, s') => (AwaitCatch err, s')
      | (Uncaught, s') => (Hung, s')
      end
  | AwaitCreate content =>
      match then_create content s with
      | (inr c, s') => (AwaitWrite c, s')
      | (inl reason, s') => (AwaitCatch reason, s')
      end
  | AwaitWrite c =>
      match then_writeFile c s with
      | (inr c', s') => (AwaitReport c', s')
      | (inl reason, s') => (AwaitCatch reason, s')
      end
  | AwaitReport c =>
      match then_report c s with
      | (inr c', s') => (Resolved (Some c'), s')
      | (inl reason, s') => (AwaitCatch reason, s')
      end
  | AwaitCatch reason =>
      match catch_report reason s with
      | (inr _, s') => (Resolved None, s')
      | (inl reason', s') => (Rejected reason', s')
      end
  | Resolved _ | Rejected _ | Hung => (t, s)
  end.

(** The longest chain is render, create, write, report, catch. *)
Definition chain_length : nat := 5.

Definition turns (n : nat) (ts : Task * State) : Task * State :=
  Nat.iter n (λ ts, task_step ts.1 ts.2) ts.

End CreateTypings.

(** The call [createTypings(...)] itself: [readSass(pathName)] starts the
    render and the pending promise is returned.  The other arguments are used
    by the callbacks, that is by [task_step]. *)
Definition createTypings (pathName : string) (creator : Creator)
    (cache : bool) (handleError handleWarning : Handler) (verbose : bool)
    (s : State) : Task * State :=
  (AwaitRender, readSass_start pathName s).

(** [await createTypings(...)] with nothing else in flight. *)
Definition createTypings_await (pathName : string) (creator : Creator)
    (cache : bool) (handleError handleWarning : Handler) (verbose : bool)
    (s : State) : Task * State :=
  turns pathName creator cache handleError handleWarning verbose chain_length
    (createTypings pathName creator cache handleError handleWarning verbose
       s).

Definition settled (t : Task) : bool :=
  match t with
  | Resolved _ | Rejected _ => true
  | _ => false
  end.

(** ** The accounting closures *)

(** [let warnings = 0; let errors = 0;] (lines 64-65, 88-89): a fresh pair
    of closure variables; the result is where they live. *)
Definition new_counters (s : State) : nat * State :=
  (length (cycles (env s)),
   set_env (set_cycles (cycles (env s) ++ [{| warnings := 0; errors := 0 |}])
              (env s)) s).

Definition read_counters (k : nat) (e : Env) : Counters :=
  default {| warnings := 0; errors := 0 |} (cycles e !! k).

(** [handleError] of both closures (lines 67-70, 91-94), closed over the
    counters at [k]. *)
Definition handleError (k : nat) : Handler :=
  λ error e,
    let e := print Error (Text error) e in
    (inr (),
     set_cycles
       (alter (λ c, {| warnings := warnings c; errors := errors c + 1 |})
          k (cycles e)) e).

(** [handleWarning] of both closures (lines 71-74, 95-98). *)
Definition handleWarning (k : nat) : Handler :=
  λ warning e,
    let e := print Warn (Text warning) e in
    (inr (),
     set_cycles
       (alter (λ c, {| warnings := warnings c + 1; errors := errors c |})
          k (cycles e)) e).

Definition reset_counters (k : nat) (e : Env) : Env :=
  set_cycles (<[k := {| warnings := 0; errors := 0 |}]> (cycles e)) e.

(** [onComplete] of [createTypingsForFileOnWatch] (lines 75-81). *)
Definition onComplete_watch (pathName : string) (k : nat) (s : State)
  : State :=
  let c := read_counters k (env s) in
  let e :=
    if 0 <? warnings c + errors c then
      print Info
        (Text (pathName +:+ ": " +:+ pretty (warnings c) +:+ " warnings, "
               +:+ pretty (errors c) +:+ " errors")) (env s)
    else env s in
  set_env (reset_counters k e) s.

(** [onComplete] of [createTypingsForFiles] (lines 99-105). *)
Definition onComplete_files (k : nat) (s : State) : State :=
  let c := read_counters k (env s) in
  let e :=
    if 0 <? warnings c + errors c then
      print Info
        (Text ("Completed with " +:+ pretty (warnings c) +:+ " warnings and "
               +:+ pretty (errors c) +:+ " errors.")) (env s)
    else env s in
  set_env (reset_counters k e) s.

(** *** Batch accounting: [createTypingsForFiles] (lines 87-110) *)

(** The promises of [pathNames.map(...)] and the state they share. *)
Record Batch := {
  b_tasks : list (string * Task);
  b_state : State
}.

Section Files.
Variables (creator : Creator) (cache : bool) (verbose : bool).

(** The event loop runs the next callback of the [i]-th promise. *)
Definition batch_step (k : nat) (b : Batch) (i : nat) : Batch :=
  match b_tasks b !! i with
  | Some (pathName, t) =>
      let '(t', s') :=
        task_step pathName creator cache (handleError k) (handleWarning k)
          verbose t (b_state b) in
      {| b_tasks := <[i := (pathName, t')]> (b_tasks b); b_state := s' |}
  | None => b
  end.

Definition batch_run (k : nat) (sched : list nat) (b : Batch) : Batch :=
  foldl (batch_step k) b sched.

(** [pathNames.map(pathName => createTypings(pathName, ...))]: every call
    starts its render before the next one is made. *)
Definition batch_launch (k : nat) (pathNames : list string) (s : State)
  : Batch :=
  foldl
    (λ b pathName,
       let '(t, s) :=
         createTypings pathName creator cache (handleError k)
           (handleWarning k) verbose (b_state b) in
       {| b_tasks := b_tasks b ++ [(pathName, t)]; b_state := s |})
    {| b_tasks := []; b_state := s |} pathNames.

(** Whatever the schedule left unfinished is run to the end, promise by
    promise: the event loop does not stop while callbacks are pending. *)
Definition drain (n : nat) : list nat :=
  i ← seq 0 n; replicate chain_length i.

(** [Promise.all]: rejected as soon as one promise is, resolved when all
    are. *)
Inductive All :=
| AllResolved
| AllRejected (reason : Reason)
| AllPending.

Fixpoint promise_all (ts : list Task) : All :=
  match ts with
  | [] => AllResolved
  | t :: ts' =>
      match t, promise_all ts' with
      | Rejected reason, _ => AllRejected reason
      | _, AllRejected reason => AllRejected reason
      | Resolved _, AllResolved => AllResolved
      | _, _ => AllPending
      end
  end.

(** All turns of the promises of one batch, before [Promise.all] settles. *)
Definition batch_settle (pathNames : list string) (sched : list nat)
    (s : State) : nat * Batch :=
  let '(k, s) := new_counters s in
  (k, batch_run k (sched ++ drain (length pathNames))
        (batch_launch k pathNames s)).

(** The closure applied to [pathNames]; [sched] is the order in which the
    event loop picks the pending callbacks. *)
Definition createTypingsForFiles (pathNames : list string)
    (sched : list nat) (s : State) : All * State :=
  let '(k, b) := batch_settle pathNames sched s in
  match promise_all (snd <$> b_tasks b) with
  | AllResolved => (AllResolved, onComplete_files k (b_state b))
  | outcome => (outcome, b_state b)
  end.

End Files.

(** *** Watch accounting: [createTypingsForFileOnWatch] (lines 63-85) *)

(** One firing of the handler: its path, where its counters live, its
    promise, and whether [onComplete] has run. *)
Record Activation := {
  a_path : string;
  a_cycle : nat;
  a_task : Task;
  a_done : bool
}.

Record Watch := {
  w_acts : list Activation;
  w_state : State
}.

Inductive EventKind := Add | Change.

(** What the event loop does next in watch mode: the watcher delivers an
    event, or a pending callback of the [i]-th firing runs. *)
Inductive Action :=
| Fire (kind : EventKind) (pathName : string)
| Turn (i : nat).

Section OnWatch.
Variables (creator : Creator) (cache : bool) (verbose : bool).

(** The handler is called with [pathName] (lines 63-84, synchronous part). *)
Definition createTypingsForFileOnWatch (pathName : string) (w : Watch)
  : Watch :=
  let '(k, s) := new_counters (w_state w) in
  let '(t, s) :=
    createTypings pathName creator cache (handleError k) (handleWarning k)
      verbose s in
  {| w_acts := w_acts w ++
       [{| a_path := pathName; a_cycle := k; a_task := t; a_done := false |}];
     w_state := s |}.

(** A callback of the chain [createTypings(...).then(onComplete)] runs. *)
Definition watch_turn (i : nat) (w : Watch) : Watch :=
  match w_acts w !! i with
  | Some a =>
      if a_done a then w
      else
        match a_task a with
        | Resolved _ =>
            {| w_acts :=
                 <[i := {| a_path := a_path a; a_cycle := a_cycle a;
                           a_task := a_task a; a_done := true |}]> (w_acts w);
               w_state := onComplete_watch (a_path a) (a_cycle a) (w_state w) |}
        | t =>
            let '(t', s') :=
              task_step (a_path a) creator cache (handleError (a_cycle a))
                (handleWarning (a_cycle a)) verbose t (w_state w) in
            {| w_acts :=
                 <[i := {| a_path := a_path a; a_cycle := a_cycle a;
                           a_task := t'; a_done := false |}]> (w_acts w);
               w_state := s' |}
        end
  | None => w
  end.

(** [watcher.on('add', ...)] and [watcher.on('change', ...)] (lines 225-226)
    register two closures built from the same arguments. *)
Definition watch_step (w : Watch) (a : Action) : Watch :=
  match a with
  | Fire Add pathName => createTypingsForFileOnWatch pathName w
  | Fire Change pathName => createTypingsForFileOnWatch pathName w
  | Turn i => watch_turn i w
  end.

Definition watch_run (actions : list Action) (w : Watch) : Watch :=
  foldl watch_step w actions.

(** The callbacks still pending after the last action: at most the chain of
    [createTypings] and [onComplete] per firing. *)
Definition watch_drain (n : nat) : list Action :=
  i ← seq 0 n; replicate (S chain_length) (Turn i).

(** The watcher delivers the events of [actions]; the loop then runs dry. *)
Definition watch_session (actions : list Action) (s : State) : Watch :=
  let w := watch_run actions {| w_acts := []; w_state := s |} in
  watch_run (watch_drain (length (w_acts w))) w.

End OnWatch.

(** ** Mode selector: [main] (lines 113-228) *)

Definition say (lvl : Level) (a : ConsoleArg) (s : State) : State :=
  set_env (print lvl a (env s)) s.

(** The callback of [glob] (lines 209-219). *)
Definition glob_callback (creator : Creator) (cache verbose : bool)
    (sched : list nat) (err : option Reason)
    (pathNames : option (list string)) (s : State) : State :=
  match err with
  | Some err => say Error (Obj err) s
  | None =>
      match pathNames with
      | None | Some [] => say Info (Text "Creating typings for 0 files") s
      | Some pathNames =>
          let s :=
            say Info
              (Text ("Creating typings for " +:+ pretty (length pathNames)
                     +:+ " files" +:+ nl)) s in
          (createTypingsForFiles creator cache verbose pathNames sched s).2
      end
  end.

(** [main]: [argv] is what yargs parsed; [sched] is the order of the
    callbacks of a batch, [actions] what happens in a watch session. *)
Definition main (argv : Argv) (sched : list nat) (actions : list Action)
    (s : State) : State :=
  if argv_h argv then record CShowHelp s
  else
    match argv_inputDir argv with
    | None => record CShowHelp s
    | Some searchDir =>
        if negb (fs_existsSync searchDir (world (env s))) then
          say Error
            (Text (chalk_red ("Error: Input directory " +:+ searchDir
                              +:+ " doesn't exist."))) s
        else
          let filesPattern := files_pattern searchDir (argv_p argv) in
          let rootDir := process_cwd (world (env s)) in
          let creator :=
            {| rootDir := rootDir; searchDir := searchDir;
               outDir := argv_o argv; camelCase := argv_c argv;
               dropExtension := argv_d argv |} in
          let cache := negb (negb (argv_w argv)) in
          if negb (argv_w argv) then
            let globOptions :=
              if truthy (argv_i argv) then argv_i argv else None in
            let s := record (CGlob filesPattern globOptions) s in
            let '(err, pathNames, w) :=
              glob_expand filesPattern globOptions (world (env s)) in
            glob_callback creator cache (argv_v argv) sched err pathNames
              (set_env (set_world w (env s)) s)
          else
            let s :=
              say Info (Text ("Watching " +:+ filesPattern +:+ " ..." +:+ nl))
                s in
            let chokidarOptions :=
              if truthy (argv_i argv) then argv_i argv else None in
            let s := record (CWatch filesPattern chokidarOptions) s in
            w_state
              (watch_session creator cache (argv_v argv) actions s)
    end.

(** ** Vocabulary of the statements *)

Definition is_onError (c : Call) : bool :=
  match c with CHandleError _ => true | _ => false end.

Definition is_onWarning (c : Call) : bool :=
  match c with CHandleWarning _ => true | _ => false end.

Definition is_handler (c : Call) : bool := is_onError c || is_onWarning c.

Definition is_write (c : Call) : bool :=
  match c with CWriteFile _ => true | _ => false end.

Definition is_render (c : Call) : bool :=
  match c with CSassRender _ => true | _ => false end.

(** The message [createTypings] hands to [handleError]. *)
Definition error_message (pathName : string) (reason : Reason) : string :=
  chalk_red ("ERROR: " +:+ pathName) +:+ nl +:+ reason_toString reason.

(** The message [createTypings] hands to [handleWarning]. *)
Definition warning_message (pathName message : string) : string :=
  chalk_yellow ("WARNING: " +:+ pathName) +:+ nl +:+ message.

(** Render, generation or persist fails with [reason] when the pipeline for
    [pathName] runs alone from the world [w]. *)
Inductive pipeline_fails (pathName : string) (creator : Creator)
    (cache : bool) (w : World) (reason : Reason) : Prop :=
| render_fails w1 :
    sass_render pathName w = (inl reason, w1) →
    pipeline_fails pathName creator cache w reason
| generate_fails css w1 w2 :
    sass_render pathName w = (inr css, w1) →
    creator_create creator pathName (Css css) cache w1 = (inl reason, w2) →
    pipeline_fails pathName creator cache w reason
| persist_fails css w1 c w2 w3 :
    sass_render pathName w = (inr css, w1) →
    creator_create creator pathName (Css css) cache w1 = (inr c, w2) →
    draft_writeFile c w2 = (inl reason, w3) →
    pipeline_fails pathName creator cache w reason.

(** Render, generation and persist succeed and leave the artifact [c] and
    the world [w']. *)
Definition pipeline_succeeds (pathName : string) (creator : Creator)
    (cache : bool) (w : World) (c : Artifact) (w' : World) : Prop :=
  ∃ css w1 d w2,
    sass_render pathName w = (inr css, w1) ∧
    creator_create creator pathName (Css css) cache w1 = (inr d, w2) ∧
    draft_writeFile d w2 = (inr c, w').

(** The warnings of an artifact; none when there is no list. *)
Definition messages (c : Artifact) : list string :=
  default [] (messageList c).

(** What the third [then] prints before it looks at the warnings. *)
Definition created_line (verbose : bool) (c : Artifact)
  : list (Level * ConsoleArg) :=
  if verbose then
    [(Info, Text ("Created " +:+ chalk_green (outputFilePath c)))]
  else [].

(** A promise that can still be, or has been, resolved. *)
Definition alive (t : Task) : bool :=
  match t with
  | Rejected _ | Hung => false
  | _ => true
  end.

(** The number of turns a promise may still need. *)
Definition rank (t : Task) : nat :=
  match t with
  | AwaitRender => 5
  | AwaitCreate _ => 4
  | AwaitWrite _ => 3
  | AwaitReport _ => 2
  | AwaitCatch _ => 1
  | Resolved _ | Rejected _ | Hung => 0
  end.

Definition count_onWarning (cs : list Call) : nat :=
  length (List.filter is_onWarning cs).

Definition count_onError (cs : list Call) : nat :=
  length (List.filter is_onError cs).

Definition add_counts (w e : nat) (c : Counters) : Counters :=
  {| warnings := warnings c + w; errors := errors c + e |}.

(** What a pipeline that reports to counting handlers has added to its
    counters, read off its promise: its warnings once it is resolved with an
    artifact, one error once it is resolved without. *)
Definition tally (t : Task) : Counters :=
  match t with
  | Resolved (Some c) => {| warnings := length (messages c); errors := 0 |}
  | Resolved None => {| warnings := 0; errors := 1 |}
  | _ => {| warnings := 0; errors := 0 |}
  end.

(** A call of [creator.create] carries the cache flag [cache]. *)
Definition creates_with (cache : bool) (c : Call) : Prop :=
  match c with
  | CCreate _ _ _ cache' => cache' = cache
  | _ => True
  end.

(** The summary line of a watch cycle. *)
Definition watch_summary (pathName : string) (c : Counters)
  : list (Level * ConsoleArg) :=
  if 0 <? warnings c + errors c then
    [(Info,
      Text (pathName +:+ ": " +:+ pretty (warnings c) +:+ " warnings, "
            +:+ pretty (errors c) +:+ " errors"))]
  else [].

(** The summary line of a batch. *)
Definition files_summary (c : Counters) : list (Level * ConsoleArg) :=
  if 0 <? warnings c + errors c then
    [(Info,
      Text ("Completed with " +:+ pretty (warnings c) +:+ " warnings and "
            +:+ pretty (errors c) +:+ " errors."))]
  else [].

(** The counters as the handler calls in [cs] leave them. *)
Definition counts_of (cs : list Call) : Counters :=
  {| warnings := count_onWarning cs; errors := count_onError cs |}.

(** What holds of a batch between any two turns: the promises are those of
    [pathNames], none is rejected or stuck, and since the batch began (with
    the call log [cs0] and its counters at [k]) the counters hold the number
    of handler calls, every [creator.create] carried [cache], and the renders
    started are those of [pathNames]. *)
Definition batch_inv (cache : bool) (k : nat) (cs0 : list Call)
    (pathNames : list string) (b : Batch) : Prop :=
  fst <$> b_tasks b = pathNames ∧
  Forall (λ pt, alive pt.2 = true) (b_tasks b) ∧
  ∃ new,
    calls (b_state b) = cs0 ++ new ∧
    cycles (env (b_state b)) !! k = Some (counts_of new) ∧
    Forall (creates_with cache) new ∧
    List.filter is_render new = CSassRender <$> pathNames.

(** The turns the [j]-th promise of a batch may still need. *)
Definition rank_at (b : Batch) (j : nat) : nat :=
  from_option (λ pt, rank pt.2) 0 (b_tasks b !! j).

Definition zero : Counters := {| warnings := 0; errors := 0 |}.

(** What holds of a watch session between any two turns.  The session began
    with [base] pairs of counters allocated and the call log [cs0].  Every
    firing owns the counters allocated for it, its promise is neither
    rejected nor stuck, and its counters hold what its own pipeline reported
    until [onComplete] clears them. *)
Definition watch_inv (cache : bool) (base : nat) (cs0 : list Call)
    (w : Watch) : Prop :=
  length (cycles (env (w_state w))) = base + length (w_acts w) ∧
  (∀ i a, w_acts w !! i = Some a →
     a_cycle a = base + i ∧
     alive (a_task a) = true ∧
     (a_done a = true → rank (a_task a) = 0) ∧
     cycles (env (w_state w)) !! (base + i)
     = Some (if a_done a then zero else tally (a_task a))) ∧
  ∃ new,
    calls (w_state w) = cs0 ++ new ∧ Forall (creates_with cache) new.

(** The turns a firing may still need, [onComplete] included. *)
Definition wrank (a : Activation) : nat :=
  if a_done a then 0 else S (rank (a_task a)).

Definition wrank_at (w : Watch) (j : nat) : nat :=
  from_option wrank 0 (w_acts w !! j).

(** A handler that always returns normally. *)
Definition returns (h : Handler) : Prop :=
  ∀ message e, (h message e).1 = inr ().

(** *** Further vocabulary *)

Definition is_create (c : Call) : bool :=
  match c with CCreate _ _ _ _ => true | _ => false end.

Definition count_create (cs : list Call) : nat :=
  length (List.filter is_create cs).

Definition count_write (cs : list Call) : nat :=
  length (List.filter is_write cs).

(** A handler that throws [reason] when it is called with [message]. *)
Definition throws_on (h : Handler) (message : string) (reason : Reason)
  : Prop :=
  ∀ e, (h message e).1 = inl reason.

(** [f] summed over the promises of a batch. *)
Definition total (f : Task → nat) (ts : list (string * Task)) : nat :=
  sum_list ((λ pt, f pt.2) <$> ts).

(** The promise has not yet called, or is about to call, [creator.create]. *)
Definition before_create (t : Task) : nat :=
  match t with
  | AwaitRender | AwaitCreate _ => 1
  | _ => 0
  end.

(** The promise is about to call [c.writeFile()]. *)
Definition awaits_write (t : Task) : nat :=
  match t with
  | AwaitWrite _ => 1
  | _ => 0
  end.

(** The promise holds a written artifact. *)
Definition holds_artifact (t : Task) : nat :=
  match t with
  | AwaitReport _ | Resolved (Some _) => 1
  | _ => 0
  end.

(** The promise is resolved without a value. *)
Definition resolved_empty (t : Task) : nat :=
  match t with
  | Resolved None => 1
  | _ => 0
  end.

(** The warnings of the artifact a promise is resolved with. *)
Definition resolved_warnings (t : Task) : nat :=
  match t with
  | Resolved (Some c) => length (messages c)
  | _ => 0
  end.

(** What a pipeline may call once its render has been started: the
    generation engine with rendered text, [writeFile], and the handlers. *)
Definition pipeline_call (c : Call) : Prop :=
  match c with
  | CCreate _ _ (Css _) _ | CWriteFile _ | CHandleError _
  | CHandleWarning _ => True
  | _ => False
  end.

(** The promise does not carry the empty sequence of the suppression branch
    of [readSass]. *)
Definition carries_text (t : Task) : Prop :=
  match t with
  | AwaitCreate EmptySeq => False
  | _ => True
  end.

(** What also holds of a batch between any two turns: after the renders of
    [pathNames] the calls are pipeline calls only, and the numbers of calls
    of the generation engine and of [writeFile] and of the handlers are
    bounded by, or equal to, what the promises have reached. *)
Definition batch_shape (cs0 : list Call) (pathNames : list string)
    (b : Batch) : Prop :=
  Forall (λ pt, carries_text pt.2) (b_tasks b) ∧
  ∃ rest,
    calls (b_state b) = cs0 ++ (CSassRender <$> pathNames) ++ rest ∧
    Forall pipeline_call rest ∧
    count_create rest + total before_create (b_tasks b)
    ≤ length pathNames ∧
    count_write rest + total awaits_write (b_tasks b) ≤ count_create rest ∧
    total holds_artifact (b_tasks b) ≤ count_write rest ∧
    count_onWarning rest = total resolved_warnings (b_tasks b) ∧
    count_onError rest = total resolved_empty (b_tasks b).

(** The counters allocated before the batch, [cyc0], are left alone, and
    the console only grows. *)
Definition batch_frame (k : nat) (cyc0 : list Counters)
    (con0 : list (Level * ConsoleArg)) (b : Batch) : Prop :=
  length (cycles (env (b_state b))) = S k ∧
  take k (cycles (env (b_state b))) = cyc0 ∧
  ∃ out, console (env (b_state b)) = con0 ++ out.

(** A call made on behalf of one file: the start of its render or a call
    of its pipeline. *)
Definition work_call (c : Call) : Prop :=
  is_render c = true ∨ pipeline_call c.

(** What also holds of a watch session between any two turns: the counters
    allocated before it, [cyc0], are left alone, the console only grows, one
    render has been started per firing, for its path, and every other call
    is a pipeline call. *)
Definition watch_shape (cs0 : list Call) (cyc0 : list Counters)
    (con0 : list (Level * ConsoleArg)) (w : Watch) : Prop :=
  Forall (λ a, carries_text (a_task a)) (w_acts w) ∧
  take (length cyc0) (cycles (env (w_state w))) = cyc0 ∧
  (∃ out, console (env (w_state w)) = con0 ++ out) ∧
  ∃ new,
    calls (w_state w) = cs0 ++ new ∧
    List.filter is_render new = CSassRender <$> (a_path <$> w_acts w) ∧
    Forall work_call new.

(** [main] gets past its three early returns (lines 174-190). *)
Definition passes_guards (argv : Argv) (s : State) : bool :=
  negb (argv_h argv) &&
  match argv_inputDir argv with
  | Some searchDir => fs_existsSync searchDir (world (env s))
  | None => false
  end.

(** The call with which [main] starts its work: [glob] or
    [chokidar.watch], on the pattern and with the ignore option of [argv]. *)
Definition mode_call (argv : Argv) : Call :=
  let pattern :=
    files_pattern (default "" (argv_inputDir argv)) (argv_p argv) in
  let ignore := if truthy (argv_i argv) then argv_i argv else None in
  if argv_w argv then CWatch pattern ignore else CGlob pattern ignore.

(** What the counting handlers print when they are called. *)
Definition echo (c : Call) : option (Level * ConsoleArg) :=
  match c with
  | CHandleError message => Some (Error, Text message)
  | CHandleWarning message => Some (Warn, Text message)
  | _ => None
  end.

(** A line printed with [console.warn] or [console.error]. *)
Definition is_report (line : Level * ConsoleArg) : bool :=
  match line.1 with
  | Info => false
  | Warn | Error => true
  end.

(** Every handler call since [cs0] has been printed, in order, since
    [con0], and nothing else has been printed as a warning or an error. *)
Definition echoed (cs0 : list Call) (con0 : list (Level * ConsoleArg))
    (s : State) : Prop :=
  ∃ new out,
    calls s = cs0 ++ new ∧
    console (env s) = con0 ++ out ∧
    List.filter is_report out = omap echo new.

(** What the pipeline of [pathName] ends with when the results of the
    collaborators are given by [R], [G] and [Wf]: the artifact, or nothing
    if one of them fails. *)
Definition outcome (R : string → Reason + string)
    (G : string → Content → Reason + Draft) (Wf : Draft → Reason + Artifact)
    (pathName : string) : option Artifact :=
  match R pathName with
  | inl _ => None
  | inr css =>
      match G pathName (Css css) with
      | inl _ => None
      | inr d =>
          match Wf d with
          | inl _ => None
          | inr c => Some c
          end
      end
  end.

(** The promise of [pathName] is where [R], [G] and [Wf] lead it. *)
Definition on_course (R : string → Reason + string)
    (G : string → Content → Reason + Draft) (Wf : Draft → Reason + Artifact)
    (pt : string * Task) : Prop :=
  match pt.2 with
  | AwaitRender => True
  | AwaitCreate content => ∃ css, R pt.1 = inr css ∧ content = Css css
  | AwaitWrite d => ∃ css, R pt.1 = inr css ∧ G pt.1 (Css css) = inr d
  | AwaitReport c => outcome R G Wf pt.1 = Some c
  | AwaitCatch _ => outcome R G Wf pt.1 = None
  | Resolved v => outcome R G Wf pt.1 = v
  | Rejected _ | Hung => False
  end.

(** Render, generation or persist fails with [reason] and leaves the world
    [w'], when the pipeline for [pathName] runs alone from the world [w]. *)
Inductive pipeline_fails_leaving (pathName : string) (creator : Creator)
    (cache : bool) (w : World) (reason : Reason) (w' : World) : Prop :=
| render_fails_leaving :
    sass_render pathName w = (inl reason, w') →
    pipeline_fails_leaving pathName creator cache w reason w'
| generate_fails_leaving css w1 :
    sass_render pathName w = (inr css, w1) →
    creator_create creator pathName (Css css) cache w1 = (inl reason, w') →
    pipeline_fails_leaving pathName creator cache w reason w'
| persist_fails_leaving css w1 c w2 :
    sass_render pathName w = (inr css, w1) →
    creator_create creator pathName (Css css) cache w1 = (inr c, w2) →
    draft_writeFile c w2 = (inl reason, w') →
    pipeline_fails_leaving pathName creator cache w reason w'.

(** A line printed with [console.info]. *)
Definition is_info (line : Level * ConsoleArg) : bool :=
  match line.1 with
  | Info => true
  | Warn | Error => false
  end.

(** The ["Created ..."] line of a promise resolved with an artifact. *)
Definition created_of (verbose : bool) (t : Task)
  : list (Level * ConsoleArg) :=
  match t with
  | Resolved (Some c) => created_line verbose c
  | _ => []
  end.


(** The paths of the [Fire] actions, in their order. *)
Definition fired (actions : list Action) : list string :=
  omap (λ a, match a with Fire _ pathName => Some pathName | Turn _ => None end)
    actions.

End Model.

(** ** A concrete set of collaborators

    Used to run the model: [B.scss] does not render, [A.scss] is written with
    two warnings, [C.scss] with no warning list at all, every other file with
    an empty one. *)
Module Demo.

Definition render (file : string) (w : list string)
  : (string + string) * list string :=
  if String.eqb file "B.scss" then (inl "Error: unclosed block", w)
  else (inr ".a{}", w).

Definition create (_ : Creator) (pathName : string) (_ : Content) (_ : bool)
    (w : list string) : (string + string) * list string :=
  if String.eqb pathName "D.scss" then (inl "Error: no tokens", w)
  else (inr pathName, w).

Definition writeFile (c : string) (w : list string)
  : (string + Artifact) * list string :=
  if String.eqb c "E.scss" then (inl "Error: EACCES", w)
  else
    (inr {| outputFilePath := c +:+ ".d.ts";
            messageList :=
              if String.eqb c "A.scss" then
                Some ["a-b is not valid"; "c-d is not valid"]
              else if String.eqb c "C.scss" then None
              else Some [] |},
     w ++ [c +:+ ".d.ts"]).

Definition expand (pattern : string) (_ : option string) (w : list string)
  : (option string * option (list string)) * list string :=
  if String.eqb pattern "src/*.scss" then
    (None, Some ["A.scss"; "B.scss"], w)
  else if String.eqb pattern "locked/*.scss" then
    (Some "Error: EPERM", None, w)
  else (None, Some [], w).

Definition externals : Externals := {|
  World := list string;
  Reason := string;
  Draft := string;
  reason_toString := id;
  chalk_red := id;
  chalk_yellow := id;
  chalk_green := id;
  sass_render := render;
  creator_create := create;
  draft_writeFile := writeFile;
  fs_existsSync := λ dir _, negb (String.eqb dir "missing");
  process_cwd := λ _, "/repo";
  files_pattern := λ dir pattern, dir +:+ "/" +:+ pattern;
  glob_expand := expand
|}.

Definition creator : Creator :=
  {| rootDir := "/repo"; searchDir := "src"; outDir := None;
     camelCase := false; dropExtension := false |}.

Definition s0 : @State externals :=
  {| env := @Build_Env externals [] [] []; calls := [] |}.

Definition argv (dir : string) (watch : bool) : Argv :=
  {| argv_h := false; argv_inputDir := Some dir; argv_c := false;
     argv_o := None; argv_p := "*.scss"; argv_w := watch; argv_d := false;
     argv_v := false; argv_i := None |}.

(** A handler that only returns. *)
Definition silent : @Handler externals := λ _ e, (inr (), e).

(** A handler that only throws. *)
Definition broken : @Handler externals := λ _ e, (inl "TypeError: h", e).

End Demo.

(** * Properties *)

Section Properties.
Context `{Externals}.
Implicit Types (s : State) (e : Env) (t : Task) (h : Handler).

(** ** Single turns of the chain *)

Section Turns.
Variables (pathName : string) (creator : Creator) (cache : bool)
  (hE hW : Handler) (verbose : bool).

Local Abbreviation step :=
  (task_step pathName creator cache hE hW verbose).

Lemma turns_succ n t s :
  turns pathName creator cache hE hW verbose (S n) (t, s)
  = turns pathName creator cache hE hW verbose n (step t s).
Proof.
  unfold turns. rewrite Nat.iter_succ_r. simpl. by destruct (step t s).
Qed.

Lemma turns_settled n t s :
  settled t = true →
  turns pathName creator cache hE hW verbose n (t, s) = (t, s).
Proof.
  intros Ht. induction n as [|n IH]; [done|].
  rewrite turns_succ. by destruct t.
Qed.

Lemma step_render_ok s css w :
  sass_render pathName (world (env s)) = (inr css, w) →
  step AwaitRender s
  = (AwaitCreate (Css css), set_env (set_world w (env s)) s).
Proof. intros Hr. unfold task_step, readSass_settle. by rewrite Hr. Qed.

Lemma step_render_fail s reason w :
  sass_render pathName (world (env s)) = (inl reason, w) →
  step AwaitRender s = (AwaitCatch reason, set_env (set_world w (env s)) s).
Proof. intros Hr. unfold task_step, readSass_settle. by rewrite Hr. Qed.

Lemma step_create_ok s content c w :
  creator_create creator pathName content cache (world (env s)) = (inr c, w) →
  step (AwaitCreate content) s
  = (AwaitWrite c,
     set_env (set_world w (env s))
       (record (CCreate creator pathName content cache) s)).
Proof.
  intros Hc. unfold task_step, then_create, bind, log_call, ext. simpl.
  by rewrite Hc.
Qed.

Lemma step_create_fail s content reason w :
  creator_create creator pathName content cache (world (env s))
  = (inl reason, w) →
  step (AwaitCreate content) s
  = (AwaitCatch reason,
     set_env (set_world w (env s))
       (record (CCreate creator pathName content cache) s)).
Proof.
  intros Hc. unfold task_step, then_create, bind, log_call, ext. simpl.
  by rewrite Hc.
Qed.

Lemma step_write_ok s c c' w :
  draft_writeFile c (world (env s)) = (inr c', w) →
  step (AwaitWrite c) s
  = (AwaitReport c', set_env (set_world w (env s)) (record (CWriteFile c) s)).
Proof.
  intros Hc. unfold task_step, then_writeFile, bind, log_call, ext. simpl.
  by rewrite Hc.
Qed.

Lemma step_write_fail s c reason w :
  draft_writeFile c (world (env s)) = (inl reason, w) →
  step (AwaitWrite c) s
  = (AwaitCatch reason,
     set_env (set_world w (env s)) (record (CWriteFile c) s)).
Proof.
  intros Hc. unfold task_step, then_writeFile, bind, log_call, ext. simpl.
  by rewrite Hc.
Qed.

Lemma step_catch s reason :
  returns hE →
  step (AwaitCatch reason) s
  = (Resolved None,
     set_env (hE (error_message pathName reason) (env s)).2
       (record (CHandleError (error_message pathName reason)) s)).
Proof.
  intros Hh. unfold task_step, catch_report, invoke.
  fold (error_message pathName reason).
  specialize (Hh (error_message pathName reason) (env s)).
  destruct (hE _ _) as [r e]. simpl in *. by subst r.
Qed.

Lemma step_catch_cases s reason :
  ∃ s',
    calls s' = calls s ++ [CHandleError (error_message pathName reason)] ∧
    (step (AwaitCatch reason) s = (Resolved None, s') ∨
     ∃ reason', step (AwaitCatch reason) s = (Rejected reason', s')).
Proof.
  unfold task_step, catch_report, invoke.
  fold (error_message pathName reason).
  destruct (hE _ _) as [[r|[]] e]; eexists; (split; [|eauto]); done.
Qed.

(** The loop over [c.messageList] (lines 47-51). *)
Lemma forEach_warning_calls l s s' :
  forEach l (λ message,
    invoke CHandleWarning hW (warning_message pathName message)) s
  = (inr (), s') →
  calls s'
  = calls s ++ ((λ m, CHandleWarning (warning_message pathName m)) <$> l).
Proof.
  revert s. induction l as [|m l IH]; intros s; simpl.
  - intros [= <-]. by rewrite app_nil_r.
  - unfold bind at 1, invoke at 1.
    destruct (hW _ _) as [[r|[]] e]; [done|].
    intros Hl. apply IH in Hl. rewrite Hl. simpl.
    by rewrite <- app_assoc.
Qed.

Lemma step_report_cases c s :
  (∃ s', step (AwaitReport c) s = (Resolved (Some c), s') ∧
     calls s' = calls s ++
       ((λ m, CHandleWarning (warning_message pathName m)) <$> messages c)) ∨
  (∃ reason s', step (AwaitReport c) s = (AwaitCatch reason, s')).
Proof.
  unfold task_step, then_report, messages, bind, console_log, ret.
  fold (warning_message pathName).
  destruct verbose, (messageList c) as [l|]; simpl;
    try (left; eexists; split; [done|]; by rewrite app_nil_r).
  all: match goal with
       | |- context [forEach ?l ?f ?s1] =>
           destruct (forEach l f s1) as [[r|[]] s2] eqn:Hl
       end; [right; eauto|].
  all: left; eexists; split; [done|].
  all: apply forEach_warning_calls in Hl; by rewrite Hl.
Qed.

(** With no warning to report the third [then] only logs. *)
Lemma step_report_quiet c s :
  messages c = [] →
  step (AwaitReport c) s
  = (Resolved (Some c),
     set_env
       {| world := world (env s);
          console := console (env s) ++ created_line verbose c;
          cycles := cycles (env s) |} s).
Proof.
  unfold messages, task_step, then_report, created_line, bind, console_log,
    ret, set_env, print.
  destruct s as [[w co cy] ca].
  destruct (messageList c) as [l|]; simpl; intros Hm; subst;
    destruct verbose; simpl; by rewrite ?app_nil_r.
Qed.

End Turns.

(** ** One pipeline running alone *)

Section Alone.
Variables (pathName : string) (creator : Creator) (cache : bool)
  (hE hW : Handler) (verbose : bool).

Local Abbreviation await :=
  (createTypings_await pathName creator cache hE hW verbose).

Local Opaque turns.

Lemma await_failure s reason :
  returns hE →
  pipeline_fails pathName creator cache (world (env s)) reason →
  (await s).1 = Resolved None ∧
  ∃ delta, calls (await s).2 = calls s ++ delta ∧
    List.filter is_handler delta
    = [CHandleError (error_message pathName reason)].
Proof.
  intros Hh Hf. unfold createTypings_await, createTypings, chain_length.
  destruct Hf as [w1 Hr | css w1 w2 Hr Hc | css w1 c w2 w3 Hr Hc Hw].
  - rewrite turns_succ; erewrite step_render_fail by exact Hr.
    rewrite turns_succ, step_catch, turns_settled by done.
    split; [done|]. eexists. simpl. rewrite <- app_assoc. done.
  - rewrite turns_succ; erewrite step_render_ok by exact Hr.
    rewrite turns_succ; erewrite step_create_fail by exact Hc.
    rewrite turns_succ, step_catch, turns_settled by done.
    split; [done|]. eexists. simpl. rewrite <- !app_assoc. done.
  - rewrite turns_succ; erewrite step_render_ok by exact Hr.
    rewrite turns_succ; erewrite step_create_ok by exact Hc.
    rewrite turns_succ; erewrite step_write_fail by exact Hw.
    rewrite turns_succ, step_catch, turns_settled by done.
    split; [done|]. eexists. simpl. rewrite <- !app_assoc. done.
Qed.

Lemma await_failure_env s reason w' :
  returns hE →
  pipeline_fails_leaving pathName creator cache (world (env s)) reason w' →
  env (await s).2
  = (hE (error_message pathName reason) (set_world w' (env s))).2.
Proof.
  intros Hh Hf. unfold createTypings_await, createTypings, chain_length.
  destruct Hf as [Hr | css w1 Hr Hc | css w1 c w2 Hr Hc Hw].
  - rewrite turns_succ; erewrite step_render_fail by exact Hr.
    rewrite turns_succ, step_catch, turns_settled by done. done.
  - rewrite turns_succ; erewrite step_render_ok by exact Hr.
    rewrite turns_succ; erewrite step_create_fail by exact Hc.
    rewrite turns_succ, step_catch, turns_settled by done. done.
  - rewrite turns_succ; erewrite step_render_ok by exact Hr.
    rewrite turns_succ; erewrite step_create_ok by exact Hc.
    rewrite turns_succ; erewrite step_write_fail by exact Hw.
    rewrite turns_succ, step_catch, turns_settled by done. done.
Qed.

Lemma fails_leaving_fails w reason w' :
  pipeline_fails_leaving pathName creator cache w reason w' →
  pipeline_fails pathName creator cache w reason.
Proof.
  intros [Hr | css w1 Hr Hc | css w1 c w2 Hr Hc Hw].
  - by eapply render_fails.
  - by eapply generate_fails.
  - by eapply persist_fails.
Qed.

Lemma await_quiet s c w' :
  pipeline_succeeds pathName creator cache (world (env s)) c w' →
  messages c = [] →
  (await s).1 = Resolved (Some c) ∧
  env (await s).2
  = {| world := w'; console := console (env s) ++ created_line verbose c;
       cycles := cycles (env s) |} ∧
  ∃ d, calls (await s).2
       = calls s ++ [CSassRender pathName;
                     CCreate creator pathName
                       (match sass_render pathName (world (env s)) with
                        | (inr css, _) => Css css
                        | _ => EmptySeq
                        end) cache;
                     CWriteFile d].
Proof.
  intros (css & w1 & d & w2 & Hr & Hc & Hw) Hm.
  unfold createTypings_await, createTypings, chain_length.
  rewrite turns_succ; erewrite step_render_ok by exact Hr.
  rewrite turns_succ; erewrite step_create_ok by exact Hc.
  rewrite turns_succ; erewrite step_write_ok by exact Hw.
  rewrite turns_succ, step_report_quiet, turns_settled by done.
  simpl. rewrite Hr. split_and!; [done..|].
  exists d. by rewrite <- !app_assoc.
Qed.

Lemma await_success s c :
  (await s).1 = Resolved (Some c) →
  ∃ delta, calls (await s).2 = calls s ++ delta ∧
    List.filter is_handler delta
    = (λ m, CHandleWarning (warning_message pathName m)) <$> messages c.
Proof.
  assert (∀ n r s1 ts,
    ts = turns pathName creator cache hE hW verbose (S n) (AwaitCatch r, s1) →
    ts.1 ≠ Resolved (Some c)) as Hcatch.
  { intros n r s1 ts ->.
    destruct (step_catch_cases pathName creator cache hE hW verbose s1 r)
      as (s' & _ & [Hs | [r' Hs]]);
      rewrite turns_succ, Hs, turns_settled by done; done. }
  remember (await s) as ts eqn:Hts. intros Hres.
  unfold createTypings_await, createTypings, chain_length in Hts.
  rewrite turns_succ in Hts. unfold task_step at 1, readSass_settle in Hts.
  destruct (sass_render _ _) as [[r|css] w1]; simpl in Hts;
    [by apply Hcatch in Hts|].
  rewrite turns_succ in Hts.
  unfold task_step at 1, then_create, bind, log_call, ext in Hts.
  simpl in Hts. destruct (creator_create _ _ _ _ _) as [[r|d] w2];
    simpl in Hts; [by apply Hcatch in Hts|].
  rewrite turns_succ in Hts.
  unfold task_step at 1, then_writeFile, bind, log_call, ext in Hts.
  simpl in Hts. destruct (draft_writeFile _ _) as [[r|c'] w3];
    simpl in Hts; [by apply Hcatch in Hts|].
  rewrite turns_succ in Hts.
  match type of Hts with
  | context [task_step _ _ _ _ _ _ (AwaitReport c') ?s1] =>
      destruct (step_report_cases pathName creator cache hE hW verbose c' s1)
        as [(s' & Hs & Hcalls) | (r & s' & Hs)]
  end; rewrite Hs in Hts; [|by apply Hcatch in Hts].
  rewrite turns_settled in Hts by done. subst ts. simpl in *.
  injection Hres as ->.
  eexists. rewrite Hcalls. simpl. rewrite <- !app_assoc. split; [done|].
  simpl. generalize (messages c). intros l. induction l; simpl; by f_equal.
Qed.

(** The loop over the warnings, when no call throws: the environment is
    passed from call to call. *)
Lemma forEach_warning_env l s s' :
  forEach l (λ message,
    invoke CHandleWarning hW (warning_message pathName message)) s
  = (inr (), s') →
  env s'
  = foldl (λ e m, (hW (warning_message pathName m) e).2) (env s) l.
Proof.
  revert s. induction l as [|m l IH]; intros s; cbn [forEach foldl].
  - by intros [= <-].
  - unfold bind at 1, invoke at 1.
    destruct (hW (warning_message pathName m) (env s)) as [[r|[]] e];
      [done|].
    intros Hl. apply IH in Hl. by rewrite Hl.
Qed.

Lemma step_report_env c s v s' :
  task_step pathName creator cache hE hW verbose (AwaitReport c) s
  = (Resolved v, s') →
  v = Some c ∧
  env s'
  = foldl (λ e m, (hW (warning_message pathName m) e).2)
      {| world := world (env s);
         console := console (env s) ++ created_line verbose c;
         cycles := cycles (env s) |}
      (messages c).
Proof.
  unfold task_step, then_report, messages, created_line, bind, console_log,
    ret.
  fold (warning_message pathName).
  destruct s as [[w co cy] ca].
  destruct verbose, (messageList c) as [l|]; simpl;
    try (intros [= <- <-]; by rewrite ?app_nil_r).
  all: match goal with
       | |- context [forEach ?l ?f ?s1] =>
           destruct (forEach l f s1) as [[r|[]] s2] eqn:Hl
       end; [done|].
  all: intros [= <- <-]; apply forEach_warning_env in Hl; rewrite Hl; simpl.
  all: by rewrite ?app_nil_r.
Qed.

(** A run that ends with an artifact: all three steps succeeded, and the
    environment is the one the calls of [handleWarning] leave. *)
Lemma await_resolved_env s c :
  (await s).1 = Resolved (Some c) →
  ∃ w',
    pipeline_succeeds pathName creator cache (world (env s)) c w' ∧
    env (await s).2
    = foldl (λ e m, (hW (warning_message pathName m) e).2)
        {| world := w';
           console := console (env s) ++ created_line verbose c;
           cycles := cycles (env s) |}
        (messages c).
Proof.
  assert (∀ n r s1 ts,
    ts = turns pathName creator cache hE hW verbose (S n) (AwaitCatch r, s1) →
    ts.1 ≠ Resolved (Some c)) as Hcatch.
  { intros n r s1 ts ->.
    destruct (step_catch_cases pathName creator cache hE hW verbose s1 r)
      as (s' & _ & [Hs | [r' Hs]]);
      rewrite turns_succ, Hs, turns_settled by done; done. }
  remember (await s) as ts eqn:Hts. intros Hres.
  unfold createTypings_await, createTypings, chain_length in Hts.
  rewrite turns_succ in Hts. unfold task_step at 1, readSass_settle in Hts.
  simpl in Hts.
  destruct (sass_render pathName (world (env s))) as [[r|css] w1] eqn:Hr;
    simpl in Hts; [by apply Hcatch in Hts|].
  rewrite turns_succ in Hts.
  unfold task_step at 1, then_create, bind, log_call, ext in Hts.
  simpl in Hts.
  destruct (creator_create creator pathName (Css css) cache w1)
    as [[r|d] w2] eqn:Hc; simpl in Hts; [by apply Hcatch in Hts|].
  rewrite turns_succ in Hts.
  unfold task_step at 1, then_writeFile, bind, log_call, ext in Hts.
  simpl in Hts.
  destruct (draft_writeFile d w2) as [[r|c'] w3] eqn:Hw;
    simpl in Hts; [by apply Hcatch in Hts|].
  rewrite turns_succ in Hts.
  match type of Hts with
  | context [task_step _ _ _ _ _ _ (AwaitReport c') ?s1] =>
      destruct (task_step pathName creator cache hE hW verbose
                  (AwaitReport c') s1) as [t' s'] eqn:Hs;
      pose proof (step_report_cases pathName creator cache hE hW verbose c'
                    s1) as Hcases
  end.
  rewrite Hs in Hcases.
  destruct Hcases as [(s'' & [= -> <-] & _) | (r & s'' & [= -> <-])];
    [|by apply Hcatch in Hts].
  rewrite turns_settled in Hts by done. subst ts. simpl in Hres.
  injection Hres as ->.
  apply step_report_env in Hs as [_ Henv].
  exists w3. split; [by exists css, w1, d, w2|]. simpl. by rewrite Henv.
Qed.

End Alone.

(** ** Turns under the counting handlers *)

Lemma alter_add_counts_0 k (cs : list Counters) :
  alter (add_counts 0 0) k cs = cs.
Proof.
  apply list_alter_id. intros [w e]. unfold add_counts. simpl.
  by rewrite !Nat.add_0_r.
Qed.

Lemma alter_add_counts k (a1 b1 a2 b2 : nat) (cs : list Counters) :
  alter (add_counts a2 b2) k (alter (add_counts a1 b1) k cs)
  = alter (add_counts (a1 + a2) (b1 + b2)) k cs.
Proof.
  rewrite list_alter_alter_eq. apply list_alter_ext; [|done].
  intros [w e] _. unfold add_counts. simpl. f_equal; lia.
Qed.

Lemma handleWarning_eq k warning e :
  handleWarning k warning e
  = (inr (),
     {| world := world e; console := console e ++ [(Warn, Text warning)];
        cycles := alter (add_counts 1 0) k (cycles e) |}).
Proof.
  unfold handleWarning, set_cycles, print. simpl. do 2 f_equal.
  apply list_alter_ext; [|done]. intros [w' e'] _. unfold add_counts. simpl.
  f_equal. lia.
Qed.

Lemma handleError_eq k error e :
  handleError k error e
  = (inr (),
     {| world := world e; console := console e ++ [(Error, Text error)];
        cycles := alter (add_counts 0 1) k (cycles e) |}).
Proof.
  unfold handleError, set_cycles, print. simpl. do 2 f_equal.
  apply list_alter_ext; [|done]. intros [w' e'] _. unfold add_counts. simpl.
  f_equal. lia.
Qed.

Lemma handleError_returns k : returns (handleError k).
Proof. done. Qed.

Section Counting.
Variables (pathName : string) (creator : Creator) (cache : bool)
  (verbose : bool) (k : nat).

Local Abbreviation cstep :=
  (task_step pathName creator cache (handleError k) (handleWarning k)
     verbose).

Lemma forEach_handleWarning l s :
  forEach l (λ message,
    invoke CHandleWarning (handleWarning k) (warning_message pathName message))
    s
  = (inr (),
     {| env :=
          {| world := world (env s);
             console := console (env s) ++
               ((λ m, (Warn, Text (warning_message pathName m))) <$> l);
             cycles := alter (add_counts (length l) 0) k (cycles (env s)) |};
        calls := calls s ++
          ((λ m, CHandleWarning (warning_message pathName m)) <$> l) |}).
Proof.
  revert s. induction l as [|m l IH]; intros [[w co cy] ca]; simpl.
  - by rewrite alter_add_counts_0, !app_nil_r.
  - unfold bind at 1, invoke at 1. rewrite handleWarning_eq. simpl.
    rewrite IH. simpl. rewrite alter_add_counts, <- !app_assoc. done.
Qed.

Lemma cstep_report c s :
  cstep (AwaitReport c) s
  = (Resolved (Some c),
     {| env :=
          {| world := world (env s);
             console := console (env s) ++ created_line verbose c ++
               ((λ m, (Warn, Text (warning_message pathName m)))
                  <$> messages c);
             cycles :=
               alter (add_counts (length (messages c)) 0) k
                 (cycles (env s)) |};
        calls := calls s ++
          ((λ m, CHandleWarning (warning_message pathName m))
             <$> messages c) |}).
Proof.
  unfold task_step, then_report, messages, created_line.
  fold (warning_message pathName).
  destruct s as [[w co cy] ca].
  destruct verbose, (messageList c) as [l|];
    unfold bind, console_log, ret; simpl;
    rewrite ?forEach_handleWarning; simpl;
    by rewrite ?alter_add_counts_0, ?app_nil_r, <- ?app_assoc.
Qed.

Lemma cstep_catch reason s :
  cstep (AwaitCatch reason) s
  = (Resolved None,
     {| env :=
          {| world := world (env s);
             console := console (env s) ++
               [(Error, Text (error_message pathName reason))];
             cycles := alter (add_counts 0 1) k (cycles (env s)) |};
        calls := calls s ++
          [CHandleError (error_message pathName reason)] |}).
Proof.
  rewrite step_catch by apply handleError_returns.
  by rewrite handleError_eq.
Qed.

Lemma count_onWarning_warnings (l : list string) :
  count_onWarning
    ((λ m, CHandleWarning (warning_message pathName m)) <$> l) = length l.
Proof. unfold count_onWarning. induction l; simpl; by f_equal. Qed.

Lemma count_onError_warnings (l : list string) :
  count_onError
    ((λ m, CHandleWarning (warning_message pathName m)) <$> l) = 0.
Proof. unfold count_onError. induction l; simpl; by f_equal. Qed.

Lemma creates_with_warnings (l : list string) :
  Forall (creates_with cache)
    ((λ m, CHandleWarning (warning_message pathName m)) <$> l).
Proof. induction l; constructor; done. Qed.

Lemma is_render_warnings (l : list string) :
  List.filter is_render
    ((λ m, CHandleWarning (warning_message pathName m)) <$> l) = [].
Proof. induction l; simpl; by f_equal. Qed.

(** What one turn does when the handlers are the counting ones. *)
Lemma cstep_spec t s :
  alive t = true →
  ∃ delta,
    alive (cstep t s).1 = true ∧
    rank (cstep t s).1 ≤ pred (rank t) ∧
    calls (cstep t s).2 = calls s ++ delta ∧
    cycles (env (cstep t s).2)
    = alter (add_counts (count_onWarning delta) (count_onError delta)) k
        (cycles (env s)) ∧
    tally (cstep t s).1
    = add_counts (count_onWarning delta) (count_onError delta) (tally t) ∧
    Forall (creates_with cache) delta ∧
    List.filter is_render delta = [].
Proof.
  intros Ht. destruct t as [|content|c|c|reason|v|reason|]; try done.
  - exists []. unfold task_step, readSass_settle.
    destruct (sass_render _ _) as [[r|css] w]; simpl;
      rewrite alter_add_counts_0, app_nil_r; split_and!; (done || lia).
  - exists [CCreate creator pathName content cache].
    unfold task_step, then_create, bind, log_call, ext. simpl.
    destruct (creator_create _ _ _ _ _) as [[r|d] w]; simpl;
      rewrite alter_add_counts_0; split_and!;
      (done || lia || by repeat constructor).
  - exists [CWriteFile c].
    unfold task_step, then_writeFile, bind, log_call, ext. simpl.
    destruct (draft_writeFile _ _) as [[r|d] w]; simpl;
      rewrite alter_add_counts_0; split_and!;
      (done || lia || by repeat constructor).
  - eexists. rewrite cstep_report. simpl.
    rewrite count_onWarning_warnings, count_onError_warnings.
    split_and!; [done|lia|done|done|done|
      apply creates_with_warnings|apply is_render_warnings].
  - eexists. rewrite cstep_catch. simpl.
    split_and!; (done || lia || by repeat constructor).
  - exists []. simpl. rewrite alter_add_counts_0, app_nil_r.
    split_and!; [done|lia|done|done| |done|done].
    unfold add_counts. destruct v; simpl; by rewrite ?Nat.add_0_r.
Qed.

End Counting.

(** ** Batches *)

Lemma count_onWarning_app cs1 cs2 :
  count_onWarning (cs1 ++ cs2) = count_onWarning cs1 + count_onWarning cs2.
Proof. unfold count_onWarning. by rewrite List.filter_app, length_app. Qed.

Lemma count_onError_app cs1 cs2 :
  count_onError (cs1 ++ cs2) = count_onError cs1 + count_onError cs2.
Proof. unfold count_onError. by rewrite List.filter_app, length_app. Qed.

Lemma counts_of_app cs1 cs2 :
  counts_of (cs1 ++ cs2)
  = add_counts (count_onWarning cs2) (count_onError cs2) (counts_of cs1).
Proof.
  unfold counts_of, add_counts. simpl.
  by rewrite count_onWarning_app, count_onError_app.
Qed.

Lemma counts_of_renders (pathNames : list string) :
  counts_of (CSassRender <$> pathNames) = {| warnings := 0; errors := 0 |}.
Proof.
  unfold counts_of, count_onWarning, count_onError.
  assert (∀ f : Call → bool, (∀ p, f (CSassRender p) = false) →
    List.filter f (CSassRender <$> pathNames) = []) as Hnone.
  { intros f Hf. induction pathNames as [|p l IH]; [done|].
    simpl. by rewrite Hf. }
  by rewrite !Hnone.
Qed.

Lemma promise_all_resolved (ts : list Task) :
  Forall (λ t, alive t = true ∧ rank t = 0) ts →
  promise_all ts = AllResolved.
Proof.
  induction 1 as [|t ts [Ha Hr] _ IH]; [done|].
  simpl. rewrite IH. by destruct t.
Qed.

Lemma drain_S n : drain (S n) = drain n ++ replicate chain_length n.
Proof.
  unfold drain. rewrite seq_S, bind_app. f_equal.
Qed.

Section Batches.
Variables (creator : Creator) (cache : bool) (verbose : bool) (k : nat).

Local Abbreviation bstep := (batch_step creator cache verbose k).
Local Abbreviation brun := (batch_run creator cache verbose k).

Lemma batch_launch_eq pathNames s :
  batch_launch creator cache verbose k pathNames s
  = {| b_tasks := (λ p, (p, AwaitRender)) <$> pathNames;
       b_state :=
         {| env := env s; calls := calls s ++ (CSassRender <$> pathNames) |} |}.
Proof.
  unfold batch_launch.
  assert (∀ b,
    foldl (λ b pathName,
       let '(t, s) :=
         createTypings pathName creator cache (handleError k)
           (handleWarning k) verbose (b_state b) in
       {| b_tasks := b_tasks b ++ [(pathName, t)]; b_state := s |})
      b pathNames
    = {| b_tasks := b_tasks b ++ ((λ p, (p, AwaitRender)) <$> pathNames);
         b_state :=
           {| env := env (b_state b);
              calls := calls (b_state b) ++ (CSassRender <$> pathNames) |} |})
    as Hgen.
  { induction pathNames as [|p l IH]; intros [ts [e cs]]; simpl.
    - by rewrite !app_nil_r.
    - rewrite IH. simpl. by rewrite <- !app_assoc. }
  by rewrite Hgen.
Qed.

Lemma batch_launch_inv pathNames s :
  cycles (env s) !! k = Some {| warnings := 0; errors := 0 |} →
  batch_inv cache k (calls s) pathNames
    (batch_launch creator cache verbose k pathNames s).
Proof.
  intros Hk. rewrite batch_launch_eq. split_and!; simpl.
  - rewrite <- list_fmap_compose. by rewrite list_fmap_id.
  - apply Forall_fmap, Forall_true. done.
  - exists (CSassRender <$> pathNames). rewrite counts_of_renders.
    split_and!; [done|done| |].
    + apply Forall_fmap, Forall_true. done.
    + induction pathNames; simpl; by f_equal.
Qed.

Lemma batch_step_inv cs0 pathNames b i :
  batch_inv cache k cs0 pathNames b →
  batch_inv cache k cs0 pathNames (bstep b i).
Proof.
  intros (Hp & Ha & new & Hc & Hk & Hcr & Hr). unfold batch_step.
  destruct (b_tasks b !! i) as [[p t]|] eqn:Hi; [|by split_and!; eauto].
  assert (alive t = true) as Ht
    by apply (Forall_lookup_1 _ _ _ _ Ha Hi).
  destruct (cstep_spec p creator cache verbose k t (b_state b) Ht)
    as (delta & Ha' & _ & Hc' & Hk' & _ & Hcr' & Hr').
  destruct (task_step _ _ _ _ _ _ _ _) as [t' s'].
    cbn [b_tasks b_state fst snd] in *.
  split_and!; cbn [b_tasks b_state].
  - rewrite list_fmap_insert. simpl. rewrite <- Hp.
    apply list_insert_id. by rewrite list_lookup_fmap, Hi.
  - by apply Forall_insert.
  - exists (new ++ delta). split_and!.
    + by rewrite Hc', Hc, <- app_assoc.
    + by rewrite Hk', list_lookup_alter_eq, Hk, counts_of_app.
    + by apply Forall_app.
    + by rewrite List.filter_app, Hr, Hr', app_nil_r.
Qed.

Lemma batch_run_inv cs0 pathNames sched b :
  batch_inv cache k cs0 pathNames b →
  batch_inv cache k cs0 pathNames (brun sched b).
Proof.
  revert b. induction sched as [|i sched IH]; intros b Hb; [done|].
  simpl. by apply IH, batch_step_inv.
Qed.

Lemma batch_step_rank cs0 pathNames b i j :
  batch_inv cache k cs0 pathNames b →
  rank_at (bstep b i) j
  ≤ if decide (j = i) then pred (rank_at b j) else rank_at b j.
Proof.
  intros (_ & Ha & _). unfold batch_step, rank_at.
  destruct (b_tasks b !! i) as [[p t]|] eqn:Hi.
  - assert (alive t = true) as Ht
      by apply (Forall_lookup_1 _ _ _ _ Ha Hi).
    destruct (cstep_spec p creator cache verbose k t (b_state b) Ht)
      as (delta & _ & Hrank & _).
    destruct (task_step _ _ _ _ _ _ _ _) as [t' s'].
    cbn [b_tasks b_state fst snd] in *.
    case_decide as Hj.
    + subst j. rewrite list_lookup_insert_eq, Hi
        by (by eapply lookup_lt_Some). done.
    + by rewrite list_lookup_insert_ne.
  - case_decide as Hj; [|done]. subst j. by rewrite Hi.
Qed.

Lemma batch_run_rank_le cs0 pathNames sched b j :
  batch_inv cache k cs0 pathNames b →
  rank_at (brun sched b) j ≤ rank_at b j.
Proof.
  revert b. induction sched as [|i sched IH]; intros b Hb; [done|].
  simpl. etrans; [by eapply IH, batch_step_inv|].
  etrans; [by eapply batch_step_rank|]. case_decide; lia.
Qed.

Lemma batch_run_replicate cs0 pathNames n b i :
  batch_inv cache k cs0 pathNames b →
  rank_at (brun (replicate n i) b) i ≤ rank_at b i - n.
Proof.
  revert b. induction n as [|n IH]; intros b Hb; simpl; [lia|].
  etrans; [by eapply IH, batch_step_inv|].
  pose proof (batch_step_rank cs0 pathNames b i i Hb) as Hs.
  rewrite decide_True in Hs by done. lia.
Qed.

Lemma batch_run_app l1 l2 b : brun (l1 ++ l2) b = brun l2 (brun l1 b).
Proof. apply foldl_app. Qed.

Lemma rank_at_bound b j : rank_at b j ≤ chain_length.
Proof.
  unfold rank_at, chain_length.
  destruct (b_tasks b !! j) as [[p []]|]; simpl; lia.
Qed.

Lemma batch_run_drain cs0 pathNames n b j :
  batch_inv cache k cs0 pathNames b →
  j < n → rank_at (brun (drain n) b) j = 0.
Proof.
  intros Hb. induction n as [|n IH]; [lia|]. intros Hj.
  rewrite drain_S, batch_run_app.
  remember (brun (drain n) b) as b' eqn:Eb.
  assert (batch_inv cache k cs0 pathNames b') as Hb'
    by (subst b'; by apply batch_run_inv).
  clear Eb. destruct (decide (j = n)) as [->|Hne].
  - pose proof (batch_run_replicate cs0 pathNames chain_length b' n Hb').
    pose proof (rank_at_bound b' n). lia.
  - pose proof (batch_run_rank_le cs0 pathNames
      (replicate chain_length n) b' j Hb') as Hle.
    rewrite IH in Hle by lia. lia.
Qed.

(** When the loop has run dry every promise of the batch is resolved. *)
Lemma batch_run_settles cs0 pathNames sched b :
  batch_inv cache k cs0 pathNames b →
  Forall (λ t, alive t = true ∧ rank t = 0)
    (snd <$> b_tasks (brun (sched ++ drain (length pathNames)) b)).
Proof.
  intros Hb. rewrite batch_run_app.
  remember (brun sched b) as b1 eqn:Eb.
  assert (batch_inv cache k cs0 pathNames b1) as Hb1
    by (subst b1; by apply batch_run_inv).
  clear Eb.
  pose proof (batch_run_inv cs0 pathNames (drain (length pathNames)) b1 Hb1)
    as (Hp & Ha & _).
  apply Forall_fmap, Forall_lookup_2. intros j [p t] Hj. simpl.
  split; [apply (Forall_lookup_1 _ _ _ _ Ha Hj)|].
  assert (j < length pathNames) as Hlt.
  { rewrite <- Hp, length_fmap. by eapply lookup_lt_Some. }
  pose proof (batch_run_drain cs0 pathNames _ b1 j Hb1 Hlt) as Hr.
  unfold rank_at in Hr. by rewrite Hj in Hr.
Qed.

Lemma batch_step_counters cs0 pathNames b i :
  batch_inv cache k cs0 pathNames b →
  warnings (read_counters k (env (b_state b)))
  ≤ warnings (read_counters k (env (b_state (bstep b i)))) ∧
  errors (read_counters k (env (b_state b)))
  ≤ errors (read_counters k (env (b_state (bstep b i)))).
Proof.
  intros (_ & Ha & _). unfold batch_step, read_counters.
  destruct (b_tasks b !! i) as [[p t]|] eqn:Hi; [|done].
  assert (alive t = true) as Ht
    by apply (Forall_lookup_1 _ _ _ _ Ha Hi).
  destruct (cstep_spec p creator cache verbose k t (b_state b) Ht)
    as (delta & _ & _ & _ & Hk & _).
  destruct (task_step _ _ _ _ _ _ _ _) as [t' s'].
  cbn [b_tasks b_state fst snd] in *.
  rewrite Hk, list_lookup_alter_eq.
  destruct (cycles (env (b_state b)) !! k) as [[w e]|]; simpl; lia.
Qed.

End Batches.

Lemma batch_settle_spec creator cache verbose pathNames sched s :
  ∃ b,
    batch_settle creator cache verbose pathNames sched s
    = (length (cycles (env s)), b) ∧
    batch_inv cache (length (cycles (env s))) (calls s) pathNames b ∧
    Forall (λ t, alive t = true ∧ rank t = 0) (snd <$> b_tasks b).
Proof.
  unfold batch_settle, new_counters. eexists. split; [done|].
  set (s1 := set_env _ s).
  assert (batch_inv cache (length (cycles (env s))) (calls s) pathNames
    (batch_launch creator cache verbose (length (cycles (env s)))
       pathNames s1)) as Hb.
  { apply (batch_launch_inv creator cache verbose _ pathNames s1).
    subst s1. simpl. by rewrite list_lookup_middle. }
  split; [by apply batch_run_inv|]. by eapply batch_run_settles.
Qed.

Lemma createTypingsForFiles_eq creator cache verbose pathNames sched s :
  createTypingsForFiles creator cache verbose pathNames sched s
  = (AllResolved,
     onComplete_files (length (cycles (env s)))
       (b_state (batch_settle creator cache verbose pathNames sched s).2)).
Proof.
  unfold createTypingsForFiles.
  destruct (batch_settle_spec creator cache verbose pathNames sched s)
    as (b & -> & _ & Hs).
  by rewrite (promise_all_resolved _ Hs).
Qed.

Lemma onComplete_files_console k s :
  console (env (onComplete_files k s))
  = console (env s) ++ files_summary (read_counters k (env s)).
Proof.
  unfold onComplete_files, files_summary.
  destruct (0 <? _); simpl; by rewrite ?app_nil_r.
Qed.

Lemma onComplete_files_calls k s :
  calls (onComplete_files k s) = calls s.
Proof. done. Qed.

Lemma onComplete_watch_console pathName k s :
  console (env (onComplete_watch pathName k s))
  = console (env s) ++ watch_summary pathName (read_counters k (env s)).
Proof.
  unfold onComplete_watch, watch_summary.
  destruct (0 <? _); simpl; by rewrite ?app_nil_r.
Qed.

(** ** Watch sessions *)

Lemma watch_drain_S n :
  watch_drain (S n)
  = watch_drain n ++ replicate (S chain_length) (Turn n).
Proof.
  unfold watch_drain. rewrite seq_S, bind_app. f_equal.
Qed.

Section Watching.
Variables (creator : Creator) (cache : bool) (verbose : bool).
Variables (base : nat) (cs0 : list Call).

Local Abbreviation wstep := (watch_step creator cache verbose).
Local Abbreviation wrun := (watch_run creator cache verbose).
Local Abbreviation winv := (watch_inv cache base cs0).

(** The firing [i] is replaced by [a'] and only its counters change. *)
Lemma watch_inv_update w i a a' s' delta :
  winv w →
  w_acts w !! i = Some a →
  a_cycle a' = a_cycle a →
  alive (a_task a') = true →
  (a_done a' = true → rank (a_task a') = 0) →
  length (cycles (env s')) = length (cycles (env (w_state w))) →
  (∀ j, j ≠ base + i →
     cycles (env s') !! j = cycles (env (w_state w)) !! j) →
  cycles (env s') !! (base + i)
  = Some (if a_done a' then zero else tally (a_task a')) →
  calls s' = calls (w_state w) ++ delta →
  Forall (creates_with cache) delta →
  winv {| w_acts := <[i := a']> (w_acts w); w_state := s' |}.
Proof.
  intros (Hlen & Hacts & new & Hc & Hcr) Hi Hcy Hal Hdone Hlen' Hother Hcell
    Hc' Hcr'.
  split_and!; cbn [w_acts w_state].
  - by rewrite Hlen', length_insert.
  - intros j b Hj. destruct (decide (j = i)) as [->|Hne].
    + rewrite list_lookup_insert_eq in Hj by (by eapply lookup_lt_Some).
      injection Hj as <-. destruct (Hacts i a Hi) as (Hk & _).
      split_and!; [congruence|done..].
    + rewrite list_lookup_insert_ne in Hj by done.
      destruct (Hacts j b Hj) as (? & ? & ? & Hcell').
      split_and!; [done..|]. rewrite Hother by lia. done.
  - exists (new ++ delta). split; [|by apply Forall_app].
    by rewrite Hc', Hc, <- app_assoc.
Qed.

Lemma watch_fire_inv w pathName :
  winv w →
  winv (createTypingsForFileOnWatch creator cache verbose pathName w).
Proof.
  intros (Hlen & Hacts & new & Hc & Hcr).
  unfold createTypingsForFileOnWatch, new_counters, createTypings.
  split_and!; cbn [w_acts w_state env cycles set_env set_cycles
    readSass_start record calls].
  - rewrite !length_app. simpl. lia.
  - intros j b Hj. apply lookup_app_Some in Hj as [Hj | [Hge Hj]].
    + destruct (Hacts j b Hj) as (? & ? & ? & Hcell).
      split_and!; [done..|]. by apply lookup_app_l_Some.
    + apply list_lookup_singleton_Some in Hj as [Hj <-].
      assert (j = length (w_acts w)) as -> by lia. simpl.
      split_and!; [lia|done|done|].
      rewrite <- Hlen. by rewrite list_lookup_middle.
  - exists (new ++ [CSassRender pathName]). rewrite Hc, <- app_assoc.
    split; [done|]. apply Forall_app. split; [done|by repeat constructor].
Qed.

Lemma watch_turn_inv w i :
  winv w → winv (watch_turn creator cache verbose i w).
Proof.
  intros Hw. pose proof Hw as (Hlen & Hacts & _). unfold watch_turn.
  destruct (w_acts w !! i) as [a|] eqn:Hi; [|done].
  destruct (a_done a) eqn:Hd; [done|].
  destruct (Hacts i a Hi) as (Hk & Hal & _ & Hcell). rewrite Hd in Hcell.
  assert (base + i < length (cycles (env (w_state w)))) as Hlt
    by (by eapply lookup_lt_Some).
  assert (∀ t', a_task a = t' → (∀ v, t' ≠ Resolved v) →
    winv
      (let '(t', s') :=
         task_step (a_path a) creator cache (handleError (a_cycle a))
           (handleWarning (a_cycle a)) verbose t' (w_state w) in
       {| w_acts :=
            <[i := {| a_path := a_path a; a_cycle := a_cycle a;
                      a_task := t'; a_done := false |}]> (w_acts w);
          w_state := s' |})) as Hstep.
  { intros t' <- _.
    destruct (cstep_spec (a_path a) creator cache verbose (a_cycle a)
      (a_task a) (w_state w) Hal)
      as (delta & Ha' & _ & Hc' & Hk' & Ht' & Hcr' & _).
    destruct (task_step _ _ _ _ _ _ _ _) as [t' s']. cbn [fst snd] in *.
    eapply (watch_inv_update w i a _ s' delta); try done.
    - by rewrite Hk', length_alter.
    - intros j Hj. rewrite Hk', list_lookup_alter_ne; [done|lia].
    - simpl. by rewrite Hk', Hk, list_lookup_alter_eq, Hcell, Ht'. }
  destruct (a_task a) as [| | | | |v| |] eqn:Ht;
    try (by apply Hstep).
  eapply (watch_inv_update w i a _ _ []); try done.
  - unfold onComplete_watch, reset_counters.
    destruct (0 <? _); simpl; by rewrite length_insert.
  - intros j Hj. unfold onComplete_watch, reset_counters.
    destruct (0 <? _); simpl; rewrite list_lookup_insert_ne; done || lia.
  - unfold onComplete_watch, reset_counters.
    destruct (0 <? _); simpl; rewrite Hk, list_lookup_insert_eq; done.
  - simpl. by rewrite app_nil_r.
Qed.

Lemma watch_step_inv w a : winv w → winv (wstep w a).
Proof.
  intros Hw. destruct a as [[] p|i]; simpl;
    auto using watch_fire_inv, watch_turn_inv.
Qed.

Lemma watch_run_inv actions w : winv w → winv (wrun actions w).
Proof.
  revert w. induction actions as [|a l IH]; intros w Hw; [done|].
  simpl. by apply IH, watch_step_inv.
Qed.

Lemma watch_turn_length w i :
  length (w_acts (watch_turn creator cache verbose i w)) = length (w_acts w).
Proof.
  unfold watch_turn. destruct (w_acts w !! i) as [a|]; [|done].
  destruct (a_done a); [done|].
  destruct (a_task a); try destruct (task_step _ _ _ _ _ _ _ _);
    simpl; by rewrite length_insert.
Qed.

Lemma watch_step_length w a :
  length (w_acts w) ≤ length (w_acts (wstep w a)).
Proof.
  destruct a as [[] p|i]; simpl; rewrite ?watch_turn_length; [| |lia];
    unfold createTypingsForFileOnWatch; simpl; rewrite length_app; lia.
Qed.

Lemma watch_turn_rank w i j :
  winv w →
  wrank_at (watch_turn creator cache verbose i w) j
  ≤ if decide (j = i) then pred (wrank_at w j) else wrank_at w j.
Proof.
  intros (_ & Hacts & _). unfold watch_turn, wrank_at.
  destruct (w_acts w !! i) as [a|] eqn:Hi;
    [|case_decide as Hj; [subst j; by rewrite Hi|done]].
  destruct (a_done a) eqn:Hd.
  { case_decide as Hj; [|done]. subst j. rewrite Hi. unfold wrank. simpl.
    rewrite Hd. done. }
  destruct (Hacts i a Hi) as (_ & Hal & _).
  pose proof (lookup_lt_Some _ _ _ Hi) as Hlt.
  assert (∀ t', a_task a = t' → 0 < rank t' →
    from_option wrank 0
      (w_acts
         (let '(t', s') :=
            task_step (a_path a) creator cache (handleError (a_cycle a))
              (handleWarning (a_cycle a)) verbose t' (w_state w) in
          {| w_acts :=
               <[i := {| a_path := a_path a; a_cycle := a_cycle a;
                         a_task := t'; a_done := false |}]> (w_acts w);
             w_state := s' |}) !! j)
    ≤ if decide (j = i) then pred (from_option wrank 0 (w_acts w !! j))
      else from_option wrank 0 (w_acts w !! j)) as Hstep.
  { intros t' <- Hpos.
    destruct (cstep_spec (a_path a) creator cache verbose (a_cycle a)
      (a_task a) (w_state w) Hal) as (delta & _ & Hrank & _).
    destruct (task_step _ _ _ _ _ _ _ _) as [t' s']. cbn [fst snd w_acts] in *.
    case_decide as Hj.
    - subst j. rewrite list_lookup_insert_eq, Hi by done.
      unfold wrank. simpl. rewrite Hd. lia.
    - by rewrite list_lookup_insert_ne. }
  destruct (a_task a) as [| | | | |v| |] eqn:Ht;
    try (apply Hstep; [done|simpl; lia]); try done.
  cbn [w_acts]. case_decide as Hj.
  - subst j. rewrite list_lookup_insert_eq, Hi by done.
    unfold wrank. simpl. lia.
  - by rewrite list_lookup_insert_ne.
Qed.

Lemma watch_step_rank_le w a j :
  winv w → j < length (w_acts w) →
  wrank_at (wstep w a) j ≤ wrank_at w j.
Proof.
  intros Hw Hj. destruct a as [[] p|i]; simpl.
  1,2: unfold createTypingsForFileOnWatch, wrank_at; simpl;
    by rewrite lookup_app_l.
  etrans; [by apply watch_turn_rank|]. case_decide; lia.
Qed.

Lemma watch_run_length actions w :
  length (w_acts w) ≤ length (w_acts (wrun actions w)).
Proof.
  revert w. induction actions as [|a l IH]; intros w; [done|].
  simpl. etrans; [apply (watch_step_length w a)|]. apply IH.
Qed.

Lemma watch_run_rank_le actions w j :
  winv w → j < length (w_acts w) →
  wrank_at (wrun actions w) j ≤ wrank_at w j.
Proof.
  revert w. induction actions as [|a l IH]; intros w Hw Hj; [done|].
  simpl. etrans; [apply IH|].
  - by apply watch_step_inv.
  - pose proof (watch_step_length w a). lia.
  - by apply watch_step_rank_le.
Qed.

Lemma watch_run_replicate n w i :
  winv w →
  wrank_at (wrun (replicate n (Turn i)) w) i ≤ wrank_at w i - n.
Proof.
  revert w. induction n as [|n IH]; intros w Hw; simpl; [lia|].
  etrans; [by apply IH, watch_turn_inv|].
  pose proof (watch_turn_rank w i i Hw) as Hs.
  rewrite decide_True in Hs by done. lia.
Qed.

Lemma wrank_at_bound w j : wrank_at w j ≤ S chain_length.
Proof.
  unfold wrank_at, wrank, chain_length.
  destruct (w_acts w !! j) as [[p c [] []]|]; simpl; lia.
Qed.

Lemma watch_run_app l1 l2 w : wrun (l1 ++ l2) w = wrun l2 (wrun l1 w).
Proof. apply foldl_app. Qed.

Lemma watch_run_drain n w j :
  winv w → n ≤ length (w_acts w) → j < n →
  wrank_at (wrun (watch_drain n) w) j = 0.
Proof.
  intros Hw. induction n as [|n IH]; [lia|]. intros Hn Hj.
  rewrite watch_drain_S, watch_run_app.
  remember (wrun (watch_drain n) w) as w' eqn:Ew.
  assert (winv w') as Hw' by (subst w'; by apply watch_run_inv).
  assert (length (w_acts w) ≤ length (w_acts w')) as Hlen
    by (subst w'; apply watch_run_length).
  clear Ew. destruct (decide (j = n)) as [->|Hne].
  - pose proof (watch_run_replicate (S chain_length) w' n Hw').
    pose proof (wrank_at_bound w' n). lia.
  - pose proof (watch_run_rank_le (replicate (S chain_length) (Turn n))
      w' j Hw') as Hle.
    rewrite IH in Hle by lia. lia.
Qed.

Lemma watch_drain_length n w :
  length (w_acts (wrun (watch_drain n) w)) = length (w_acts w).
Proof.
  induction n as [|n IH]; [done|].
  rewrite watch_drain_S, watch_run_app.
  remember (wrun (watch_drain n) w) as w' eqn:Ew. clear Ew.
  rewrite <- IH. clear IH. generalize (S chain_length). intros m. revert w'.
  induction m as [|m IHm]; intros w'; [done|].
  simpl. by rewrite IHm, watch_turn_length.
Qed.

End Watching.

Lemma watch_init_inv cache s :
  watch_inv cache (length (cycles (env s))) (calls s)
    {| w_acts := []; w_state := s |}.
Proof.
  split_and!; simpl; [lia|done|]. exists []. by rewrite app_nil_r.
Qed.

(** Once the loop has run dry [onComplete] has run for every firing. *)
Lemma watch_session_done creator cache verbose actions s i a :
  w_acts (watch_session creator cache verbose actions s) !! i = Some a →
  a_done a = true.
Proof.
  unfold watch_session.
  remember (watch_run creator cache verbose actions _) as w eqn:Ew.
  assert (watch_inv cache (length (cycles (env s))) (calls s) w) as Hw
    by (subst w; apply watch_run_inv, watch_init_inv).
  clear Ew. intros Hi.
  assert (i < length (w_acts w)) as Hlt.
  { apply lookup_lt_Some in Hi. by rewrite watch_drain_length in Hi. }
  pose proof (watch_run_drain creator cache verbose _ _ _ w i Hw
    (reflexivity _) Hlt) as Hr.
  unfold wrank_at in Hr. rewrite Hi in Hr. unfold wrank in Hr. simpl in Hr.
  by destruct (a_done a).
Qed.


(** ** What is printed with [console.info] *)

Lemma bind_insert_perm {A B} (f : A → list B) (l : list A) i x y extra :
  l !! i = Some x →
  f y ≡ₚ f x ++ extra →
  <[i := y]> l ≫= f ≡ₚ (l ≫= f) ++ extra.
Proof.
  intros Hi Hf. revert i Hi. induction l as [|z l IH]; intros i Hi; [done|].
  destruct i as [|i].
  - injection Hi as ->.
    change (<[0:=y]> (x :: l)) with (y :: l). rewrite !bind_cons, Hf.
    rewrite <- !app_assoc. apply Permutation_app_head, Permutation_app_comm.
  - change (<[S i:=y]> (z :: l)) with (z :: <[i:=y]> l).
    rewrite !bind_cons, (IH i Hi). by rewrite app_assoc.
Qed.

Lemma is_info_created verbose c :
  List.filter is_info (created_line verbose c) = created_line verbose c.
Proof. unfold created_line. by destruct verbose. Qed.

Lemma is_info_warnings pathName (l : list string) :
  List.filter is_info
    ((λ m, (Warn, Text (warning_message pathName m))) <$> l) = [].
Proof. induction l; simpl; done. Qed.


(** One turn under the counting handlers prints a [console.info] line only
    when it resolves the promise with an artifact, and [verbose] is set. *)
Lemma cstep_info pathName creator cache verbose k t s :
  ∃ out,
    console
      (env (task_step pathName creator cache (handleError k)
              (handleWarning k) verbose t s).2)
    = console (env s) ++ out ∧
    created_of verbose
      (task_step pathName creator cache (handleError k) (handleWarning k)
         verbose t s).1
    = created_of verbose t ++ List.filter is_info out.
Proof.
  destruct t as [|content|c|c|reason|v|reason|].
  - exists []. unfold task_step, readSass_settle.
    destruct (sass_render _ _) as [[r|css] w]; simpl; by rewrite app_nil_r.
  - exists []. unfold task_step, then_create, bind, log_call, ext. simpl.
    destruct (creator_create _ _ _ _ _) as [[r|d] w]; simpl;
      by rewrite app_nil_r.
  - exists []. unfold task_step, then_writeFile, bind, log_call, ext. simpl.
    destruct (draft_writeFile _ _) as [[r|d] w]; simpl; by rewrite app_nil_r.
  - eexists. rewrite cstep_report. simpl. split; [done|].
    by rewrite List.filter_app, is_info_created, is_info_warnings, app_nil_r.
  - eexists. rewrite cstep_catch. simpl. split; done.
  - exists []. simpl. by rewrite !app_nil_r.
  - exists []. simpl. by rewrite !app_nil_r.
  - exists []. simpl. by rewrite !app_nil_r.
Qed.

Section Printed.
Variables (creator : Creator) (cache : bool) (verbose : bool).
Variables (base : nat) (cs0 : list Call) (con0 : list (Level * ConsoleArg)).



End Printed.


(** ** The renderer adapter *)

Lemma readSass_fst pathName relativeTo s :
  (readSass pathName relativeTo s).1
  = readSass_callback relativeTo (sass_render pathName (world (env s))).1.
Proof.
  unfold readSass, readSass_settle. simpl.
  by destruct (sass_render _ _).
Qed.

Lemma readSass_eq pathName relativeTo s :
  readSass pathName relativeTo s
  = (readSass_callback relativeTo
       (sass_render pathName (world (env s))).1,
     set_env (set_world (sass_render pathName (world (env s))).2 (env s))
       (record (CSassRender pathName) s)).
Proof.
  unfold readSass, readSass_settle. simpl. by destruct (sass_render _ _).
Qed.

(** C4.  When the render of [pathName] fails with [err]: if [relativeTo] is
    unset, as the callback tests it (undefined or the empty string, the
    falsy values), or equals the root sentinel ["/"], the promise of
    [readSass] is rejected, and the reason is [err] itself, the error of the
    preprocessor; for every other [relativeTo] the failure is suppressed and
    the promise is resolved with the empty sequence, which is what the next
    callback of a chain receives in place of rendered text.  In both cases
    the render has been started once and the world is the one it left. *)
Theorem readSass_failure_policy pathName relativeTo s err w :
  sass_render pathName (world (env s)) = (inl err, w) →
  let s' := set_env (set_world w (env s)) (record (CSassRender pathName) s) in
  (truthy relativeTo = false ∨ relativeTo = Some "/" →
   readSass pathName relativeTo s = (Reject err, s')) ∧
  (truthy relativeTo = true → relativeTo ≠ Some "/" →
   readSass pathName relativeTo s = (Resolve EmptySeq, s')).
Proof.
  intros Hr. rewrite readSass_eq, Hr. simpl. split.
  - intros [Ht| ->]; [|done]. rewrite Ht. done.
  - intros Ht Hn. rewrite Ht.
    destruct relativeTo as [r|]; [|done]. simpl.
    destruct (String.eqb_spec r "/") as [->|_]; done.
Qed.

(** ** The typing pipeline *)

(** C1.  If render, generation or persist fails with [reason], leaving
    the world [w'], and [handleError] returns, then [handleError] is invoked
    with the error title of the path, a newline and the reason: the
    environment the pipeline leaves is the one [handleError] leaves when it
    is applied to that message after the failure, the call is the only
    handler call made, and the promise of [createTypings] is resolved with no
    value.  A batch is therefore never rejected: whatever its paths and the
    order of the callbacks, [Promise.all] resolves. *)
Theorem createTypings_absorbs_failure pathName creator cache hE hW verbose s
    reason w' :
  returns hE →
  pipeline_fails_leaving pathName creator cache (world (env s)) reason w' →
  let ts := createTypings_await pathName creator cache hE hW verbose s in
  let message :=
    chalk_red ("ERROR: " +:+ pathName) +:+ nl +:+ reason_toString reason in
  ts.1 = Resolved None ∧
  env ts.2 = (hE message (set_world w' (env s))).2 ∧
  (∃ delta, calls ts.2 = calls s ++ delta ∧
     List.filter is_handler delta = [CHandleError message]) ∧
  ∀ pathNames sched s',
    (createTypingsForFiles creator cache verbose pathNames sched s').1
    = AllResolved.
Proof.
  intros Hh Hf.
  destruct (await_failure pathName creator cache hE hW verbose s reason
    Hh (fails_leaving_fails _ _ _ _ _ _ Hf)) as [Hres Hcalls].
  pose proof (await_failure_env pathName creator cache hE hW verbose s
    reason w' Hh Hf) as Henv.
  split_and!; [done|done|done|].
  intros pathNames sched s'. by rewrite createTypingsForFiles_eq.
Qed.

(** C6.  If render, generation and persist succeed, leaving the artifact
    [c] and the world [w'], and the artifact has no warning, the promise is
    resolved with the artifact; the world is the one the write left;
    [writeFile] has been called exactly once; no handler is called, so the
    counters are untouched; and the console has received the
    ["Created ..."] line if [verbose] is set and nothing otherwise. *)
Theorem createTypings_clean_success pathName creator cache hE hW verbose s c
    w' :
  pipeline_succeeds pathName creator cache (world (env s)) c w' →
  messages c = [] →
  let ts := createTypings_await pathName creator cache hE hW verbose s in
  ts.1 = Resolved (Some c) ∧
  env ts.2
  = {| world := w';
       console :=
         console (env s) ++
           (if verbose then
              [(Info, Text ("Created " +:+ chalk_green (outputFilePath c)))]
            else []);
       cycles := cycles (env s) |} ∧
  ∃ delta, calls ts.2 = calls s ++ delta ∧
    List.filter is_handler delta = [] ∧
    length (List.filter is_write delta) = 1.
Proof.
  intros Hs Hm.
  destruct (await_quiet pathName creator cache hE hW verbose s c w' Hs Hm)
    as (Hres & Henv & d & Hcalls).
  split_and!; [done|by rewrite Henv|].
  eexists. split; [exact Hcalls|]. done.
Qed.

(** C7.  When the promise is resolved with an artifact that carries the
    warning list [l], [handleWarning] has been invoked once per element of
    [l], in the order of [l], each time with the warning title of the path, a
    newline and the warning: these are the handler calls made, and the
    environment the pipeline leaves is the one these invocations leave, one
    after the other, starting from the world of the write and the console
    line of [verbose]. *)
Theorem createTypings_reports_warnings pathName creator cache hE hW verbose s
    c l :
  (createTypings_await pathName creator cache hE hW verbose s).1
  = Resolved (Some c) →
  messageList c = Some l →
  let message m := chalk_yellow ("WARNING: " +:+ pathName) +:+ nl +:+ m in
  (∃ delta,
     calls (createTypings_await pathName creator cache hE hW verbose s).2
     = calls s ++ delta ∧
     List.filter is_handler delta
     = (λ m, CHandleWarning (message m)) <$> l) ∧
  ∃ w',
    pipeline_succeeds pathName creator cache (world (env s)) c w' ∧
    env (createTypings_await pathName creator cache hE hW verbose s).2
    = foldl (λ e m, (hW (message m) e).2)
        {| world := w';
           console :=
             console (env s) ++
               (if verbose then
                  [(Info,
                    Text ("Created " +:+ chalk_green (outputFilePath c)))]
                else []);
           cycles := cycles (env s) |}
        l.
Proof.
  intros Hres Hl message.
  destruct (await_success pathName creator cache hE hW verbose s c Hres)
    as (delta & Hcalls & Hf).
  destruct (await_resolved_env pathName creator cache hE hW verbose s c Hres)
    as (w' & Hs & Henv).
  unfold messages in Hf, Henv. rewrite Hl in Hf, Henv. simpl in Hf, Henv.
  split; [by exists delta|]. by exists w'.
Qed.

(** C10.  If render, generation and persist succeed and the artifact has no
    [messageList] at all, the promise is still resolved with the artifact and
    neither handler is called. *)
Theorem createTypings_without_messageList pathName creator cache hE hW
    verbose s c w' :
  pipeline_succeeds pathName creator cache (world (env s)) c w' →
  messageList c = None →
  let ts := createTypings_await pathName creator cache hE hW verbose s in
  ts.1 = Resolved (Some c) ∧
  ∃ delta, calls ts.2 = calls s ++ delta ∧
    List.filter is_onWarning delta = [] ∧
    List.filter is_onError delta = [].
Proof.
  intros Hs Hm.
  destruct (await_quiet pathName creator cache hE hW verbose s c w' Hs)
    as (Hres & _ & d & Hcalls).
  { unfold messages. by rewrite Hm. }
  split; [done|]. eexists. split; [exact Hcalls|]. done.
Qed.

(** ** Accounting *)

Lemma resolved_of_rank (ts : list (string * Task)) :
  Forall (λ t, alive t = true ∧ rank t = 0) (snd <$> ts) →
  Forall (λ pt, ∃ v, pt.2 = Resolved v) ts.
Proof.
  intros Hs. apply Forall_fmap in Hs. eapply Forall_impl; [exact Hs|].
  intros [p t] [Ha Hr]. simpl in *. destruct t; try done. eauto.
Qed.


(** C5.  In a batch the counters start at zero, no turn of any promise makes
    them smaller, they are read when every promise of the batch is resolved,
    and what is read, and reported in the summary, is the number of calls of
    [handleWarning] and of [handleError] made since the batch began. *)
Theorem batch_counters_account creator cache verbose pathNames sched s :
  let k := length (cycles (env s)) in
  let launched :=
    batch_launch creator cache verbose k pathNames (new_counters s).2 in
  let b := (batch_settle creator cache verbose pathNames sched s).2 in
  read_counters k (env (b_state launched))
  = {| warnings := 0; errors := 0 |} ∧
  (∀ sched1 i,
     let b1 := batch_run creator cache verbose k sched1 launched in
     let b2 := batch_step creator cache verbose k b1 i in
     warnings (read_counters k (env (b_state b1)))
     ≤ warnings (read_counters k (env (b_state b2))) ∧
     errors (read_counters k (env (b_state b1)))
     ≤ errors (read_counters k (env (b_state b2)))) ∧
  Forall (λ pt, ∃ v, pt.2 = Resolved v) (b_tasks b) ∧
  ∃ new,
    calls (b_state b) = calls s ++ new ∧
    read_counters k (env (b_state b))
    = {| warnings := count_onWarning new; errors := count_onError new |} ∧
    console
      (env (createTypingsForFiles creator cache verbose pathNames sched s).2)
    = console (env (b_state b)) ++
        (if 0 <? count_onWarning new + count_onError new then
           [(Info,
             Text ("Completed with " +:+ pretty (count_onWarning new)
                   +:+ " warnings and " +:+ pretty (count_onError new)
                   +:+ " errors."))]
         else []).
Proof.
  intros k launched b.
  assert (batch_inv cache k (calls s) pathNames launched) as Hl.
  { apply (batch_launch_inv creator cache verbose k pathNames
      (new_counters s).2).
    unfold new_counters. simpl. by rewrite list_lookup_middle. }
  destruct (batch_settle_spec creator cache verbose pathNames sched s)
    as (b' & Hb & (_ & _ & new & Hc & Hk & _) & Hs).
  subst b. rewrite Hb. cbn [snd]. fold k in Hk.
  split_and!.
  - unfold launched. rewrite batch_launch_eq.
    unfold read_counters, new_counters. simpl.
    by rewrite list_lookup_middle.
  - intros sched1 i. cbv zeta.
    apply (batch_step_counters creator cache verbose k (calls s) pathNames).
    by apply batch_run_inv.
  - by apply resolved_of_rank.
  - exists new. split_and!; [done| |].
    + unfold read_counters. by rewrite Hk.
    + rewrite createTypingsForFiles_eq, Hb. cbn [snd].
      rewrite onComplete_files_console. unfold read_counters.
      fold k. by rewrite Hk.
Qed.

(** C2.  In a watch session, at any moment and whatever else is in flight:
    when the promise of a firing is resolved and its [onComplete] has not run
    yet, its counters hold its own warnings and no error if it was resolved
    with an artifact, and no warning and one error if it was resolved without
    one; the turn of its [onComplete] prints the summary of exactly these
    numbers.  And whenever the watcher fires, the counters of the new firing
    are zero. *)
Theorem watch_counters_per_event creator cache verbose actions s i a v :
  let w :=
    watch_run creator cache verbose actions {| w_acts := []; w_state := s |}
  in
  w_acts w !! i = Some a →
  a_done a = false →
  a_task a = Resolved v →
  read_counters (a_cycle a) (env (w_state w))
  = match v with
    | Some c => {| warnings := length (messages c); errors := 0 |}
    | None => {| warnings := 0; errors := 1 |}
    end ∧
  console (env (w_state (watch_turn creator cache verbose i w)))
  = console (env (w_state w)) ++
      match v with
      | Some c =>
          if 0 <? length (messages c) then
            [(Info,
              Text (a_path a +:+ ": " +:+ pretty (length (messages c))
                    +:+ " warnings, 0 errors"))]
          else []
      | None => [(Info, Text (a_path a +:+ ": 0 warnings, 1 errors"))]
      end ∧
  ∀ kind pathName,
    let w' := watch_step creator cache verbose w (Fire kind pathName) in
    ∃ a',
      last (w_acts w') = Some a' ∧
      a_path a' = pathName ∧
      read_counters (a_cycle a') (env (w_state w'))
      = {| warnings := 0; errors := 0 |}.
Proof.
  intros w Hi Hd Ht.
  assert (watch_inv cache (length (cycles (env s))) (calls s) w) as Hw
    by apply watch_run_inv, watch_init_inv.
  pose proof Hw as (Hlen & Hacts & _).
  destruct (Hacts i a Hi) as (Hk & _ & _ & Hcell).
  rewrite Hd, Ht, <- Hk in Hcell.
  assert (read_counters (a_cycle a) (env (w_state w)) = tally (Resolved v))
    as Hread by (unfold read_counters; by rewrite Hcell).
  split_and!.
  - rewrite Hread. by destruct v.
  - unfold watch_turn. rewrite Hi, Hd, Ht. cbn [w_state].
    rewrite onComplete_watch_console, Hread. f_equal.
    unfold watch_summary. destruct v as [c|]; simpl; [|done].
    rewrite Nat.add_0_r. by destruct (0 <? _).
  - intros kind pathName w'.
    assert (w' = createTypingsForFileOnWatch creator cache verbose pathName w)
      as -> by by destruct kind.
    pose proof (watch_fire_inv creator cache verbose _ _ w pathName Hw)
      as (_ & Hacts' & _).
    unfold createTypingsForFileOnWatch, new_counters, createTypings in *.
    cbn [w_acts w_state] in *. eexists. rewrite last_snoc.
    split_and!; [done|done|].
    specialize (Hacts' (length (w_acts w)) _
      (list_lookup_middle _ [] _ _ eq_refl)) as (_ & _ & _ & Hc).
    cbn [a_cycle a_done a_task] in *. unfold read_counters.
    rewrite Hlen. cbn [env cycles set_env set_cycles readSass_start record]
      in *. by rewrite Hc.
Qed.

(** ** The mode selector *)

Lemma createTypingsForFiles_calls creator cache verbose pathNames sched s :
  ∃ new,
    calls (createTypingsForFiles creator cache verbose pathNames sched s).2
    = calls s ++ new ∧
    Forall (creates_with cache) new ∧
    List.filter is_render new = CSassRender <$> pathNames.
Proof.
  rewrite createTypingsForFiles_eq.
  destruct (batch_settle_spec creator cache verbose pathNames sched s)
    as (b & -> & (_ & _ & new & Hc & _ & Hcr & Hr) & _).
  exists new. cbn [fst snd]. by rewrite onComplete_files_calls.
Qed.

Lemma glob_callback_calls creator cache verbose sched err pathNames s :
  ∃ new,
    calls (glob_callback creator cache verbose sched err pathNames s)
    = calls s ++ new ∧
    Forall (creates_with cache) new.
Proof.
  unfold glob_callback.
  destruct err as [e|]; [exists []; by rewrite app_nil_r|].
  destruct pathNames as [[|p l]|]; try (exists []; by rewrite app_nil_r).
  match goal with
  | |- context [createTypingsForFiles ?c ?f ?v ?l ?sc ?st] =>
      destruct (createTypingsForFiles_calls c f v l sc st)
        as (new & Hc & Hcr & _)
  end.
  by exists new.
Qed.

Lemma watch_session_calls creator cache verbose actions s :
  ∃ new,
    calls (w_state (watch_session creator cache verbose actions s))
    = calls s ++ new ∧
    Forall (creates_with cache) new.
Proof.
  unfold watch_session.
  remember (watch_run creator cache verbose actions _) as w eqn:Ew.
  assert (watch_inv cache (length (cycles (env s))) (calls s) w) as Hw
    by (subst w; apply watch_run_inv, watch_init_inv).
  clear Ew.
  by pose proof (watch_run_inv creator cache verbose _ _
    (watch_drain (length (w_acts w))) w Hw) as (_ & _ & Hnew).
Qed.

(** C8.  With the watch flag unset, an existing input directory and no help
    requested: if [glob] reports an error, the error is printed and nothing
    else happens; if it finds no path, the zero-file notice is printed once
    and nothing else happens; in both cases no call other than [glob] is made
    and no counters are allocated.  Otherwise the number of paths is printed
    and the rest of the run is [createTypingsForFiles] applied to exactly the
    paths found, with a render started for each of them, in their order. *)
Theorem main_batch_mode argv sched actions s searchDir err pathNames w :
  argv_h argv = false →
  argv_inputDir argv = Some searchDir →
  fs_existsSync searchDir (world (env s)) = true →
  argv_w argv = false →
  let pattern := files_pattern searchDir (argv_p argv) in
  let ignore := if truthy (argv_i argv) then argv_i argv else None in
  glob_expand pattern ignore (world (env s)) = (err, pathNames, w) →
  let s' := main argv sched actions s in
  match err, pathNames with
  | Some e, _ =>
      console (env s') = console (env s) ++ [(Error, Obj e)] ∧
      calls s' = calls s ++ [CGlob pattern ignore] ∧
      cycles (env s') = cycles (env s)
  | None, None | None, Some [] =>
      console (env s')
      = console (env s) ++ [(Info, Text "Creating typings for 0 files")] ∧
      calls s' = calls s ++ [CGlob pattern ignore] ∧
      cycles (env s') = cycles (env s)
  | None, Some l =>
      let creator :=
        {| rootDir := process_cwd (world (env s)); searchDir := searchDir;
           outDir := argv_o argv; camelCase := argv_c argv;
           dropExtension := argv_d argv |} in
      let counted :=
        {| env :=
             {| world := w;
                console := console (env s) ++
                  [(Info,
                    Text ("Creating typings for " +:+ pretty (length l)
                          +:+ " files" +:+ nl))];
                cycles := cycles (env s) |};
           calls := calls s ++ [CGlob pattern ignore] |} in
      s' = (createTypingsForFiles creator false (argv_v argv) l sched
              counted).2 ∧
      ∃ rest,
        calls s' = calls s ++ CGlob pattern ignore :: rest ∧
        List.filter is_render rest = CSassRender <$> l
  end.
Proof.
  intros Hh Hd He Hw pattern ignore Hg s'. subst s'. unfold main.
  rewrite Hh, Hd, He, Hw. cbn [negb].
  fold pattern. fold ignore. cbn [record env world]. rewrite Hg.
  unfold glob_callback.
  destruct err as [e|]; [done|].
  destruct pathNames as [[|p l]|]; [done| |done].
  cbv zeta. split; [done|].
  match goal with
  | |- context [createTypingsForFiles ?c ?f ?v ?l ?sc ?st] =>
      destruct (createTypingsForFiles_calls c f v l sc st)
        as (new & Hc & _ & Hr)
  end.
  exists new. split; [|done]. rewrite Hc. simpl. by rewrite <- app_assoc.
Qed.

(** C9.  Every call of [creator.create] made during a run of [main] carries
    the same cache flag, and it is the watch flag: [true] in watch mode,
    [false] in batch mode. *)
Theorem cache_flag_is_watch_flag argv sched actions s :
  ∃ new,
    calls (main argv sched actions s) = calls s ++ new ∧
    ∀ creator pathName content cache,
      CCreate creator pathName content cache ∈ new → cache = argv_w argv.
Proof.
  assert (∀ cache new, Forall (creates_with cache) new →
    ∀ creator pathName content cache',
      CCreate creator pathName content cache' ∈ new → cache' = cache)
    as Hall.
  { intros cache new Hf creator pathName content cache' Hin.
    by apply (proj1 (Forall_forall _ _) Hf) in Hin. }
  assert (∀ c : Call, (∀ cr p co ca, c ≠ CCreate cr p co ca) →
    ∀ creator pathName content cache,
      CCreate creator pathName content cache ∈ [c] → cache = argv_w argv)
    as Hone.
  { intros c Hc creator pathName content cache Hin.
    apply list_elem_of_singleton in Hin.
    by destruct (Hc _ _ _ _ (eq_sym Hin)). }
  unfold main.
  destruct (argv_h argv); [by exists [CShowHelp]; split; [|apply Hone]|].
  destruct (argv_inputDir argv) as [searchDir|];
    [|by exists [CShowHelp]; split; [|apply Hone]].
  destruct (fs_existsSync _ _); cbn [negb];
    [|exists []; split; [by rewrite app_nil_r|by intros ???? ?%elem_of_nil]].
  destruct (argv_w argv) eqn:Hw; cbn [negb].
  - match goal with
    | |- context [watch_session ?c ?f ?v ?a ?st] =>
        destruct (watch_session_calls c f v a st) as (new & Hc & Hcr)
    end.
    exists (CWatch (files_pattern searchDir (argv_p argv))
              (if truthy (argv_i argv) then argv_i argv else None) :: new).
    split; [rewrite Hc; simpl; by rewrite <- app_assoc|].
    apply Hall. by constructor.
  - cbn [record env world].
    destruct (glob_expand _ _ _) as [[err pathNames] w].
    match goal with
    | |- context [glob_callback ?c ?f ?v ?sc ?e ?l ?st] =>
        destruct (glob_callback_calls c f v sc e l st) as (new & Hc & Hcr)
    end.
    exists (CGlob (files_pattern searchDir (argv_p argv))
              (if truthy (argv_i argv) then argv_i argv else None) :: new).
    split; [rewrite Hc; simpl; by rewrite <- app_assoc|].
    apply Hall. by constructor.
Qed.

End Properties.

(** * Further properties *)

Section Further.
Context `{Externals}.
Implicit Types (s : State) (e : Env) (t : Task) (h : Handler).

(** ** The renderer adapter and the pipeline, alone *)

Section AloneFurther.
Variables (pathName : string) (creator : Creator) (cache : bool)
  (hE hW : Handler) (verbose : bool).

Local Abbreviation step :=
  (task_step pathName creator cache hE hW verbose).
Local Abbreviation await :=
  (createTypings_await pathName creator cache hE hW verbose).

Local Opaque turns.

Lemma step_catch_throws s reason reason' :
  throws_on hE (error_message pathName reason) reason' →
  step (AwaitCatch reason) s
  = (Rejected reason',
     set_env (hE (error_message pathName reason) (env s)).2
       (record (CHandleError (error_message pathName reason)) s)).
Proof.
  intros Hh. unfold task_step, catch_report, invoke.
  fold (error_message pathName reason).
  specialize (Hh (env s)). destruct (hE _ _) as [r e]. simpl in *.
  by subst r.
Qed.

(** The loop over the warnings, whatever the handler does: the calls made
    are those for a prefix of the list. *)
Lemma forEach_warning_calls_prefix l s r s' :
  forEach l (λ message,
    invoke CHandleWarning hW (warning_message pathName message)) s
  = (r, s') →
  ∃ l', l' `prefix_of` l ∧
    calls s'
    = calls s ++ ((λ m, CHandleWarning (warning_message pathName m)) <$> l').
Proof.
  revert s. induction l as [|m l IH]; intros s; simpl.
  - intros [= <- <-]. exists []. by rewrite app_nil_r.
  - unfold bind at 1, invoke at 1.
    destruct (hW _ _) as [[r0|[]] e].
    + intros [= <- <-]. exists [m]. split; [by apply prefix_cons, prefix_nil|].
      done.
    + intros Hl. apply IH in Hl as (l' & Hp & Hc). exists (m :: l').
      split; [by apply prefix_cons|]. rewrite Hc. simpl.
      by rewrite <- app_assoc.
Qed.

Lemma step_report_calls c s :
  ∃ l', l' `prefix_of` messages c ∧
    calls (step (AwaitReport c) s).2
    = calls s ++ ((λ m, CHandleWarning (warning_message pathName m)) <$> l').
Proof.
  unfold task_step, then_report, messages, bind, console_log, ret.
  fold (warning_message pathName).
  destruct verbose, (messageList c) as [l|]; simpl;
    try (exists []; split; [done|]; by rewrite app_nil_r).
  all: match goal with
       | |- context [forEach ?l ?f ?s1] =>
           destruct (forEach l f s1) as [r s2] eqn:Hl
       end.
  all: apply forEach_warning_calls_prefix in Hl as (l' & Hp & Hc).
  all: exists l'; split; [done|]; by destruct r as [r|[]].
Qed.

Lemma step_report_throws c s m l reason :
  messageList c = Some (m :: l) →
  throws_on hW (warning_message pathName m) reason →
  ∃ s',
    step (AwaitReport c) s = (AwaitCatch reason, s') ∧
    calls s' = calls s ++ [CHandleWarning (warning_message pathName m)].
Proof.
  intros Hm Hh. unfold task_step, then_report, bind, console_log, ret.
  rewrite Hm. fold (warning_message pathName).
  destruct verbose; simpl; unfold bind, invoke; simpl;
    match goal with
    | |- context [hW ?msg ?e0] =>
        pose proof (Hh e0) as Ht; unfold warning_message in Ht;
        destruct (hW msg e0) as [r e1]
    end; simpl in Ht; subst r; simpl; eauto.
Qed.

(** A list of calls of the handlers contains no call of a collaborator. *)
Lemma handlers_only (cs : list Call) :
  Forall (λ c, is_handler c = true) cs →
  List.filter is_render cs = [] ∧ List.filter is_create cs = [] ∧
  List.filter is_write cs = [].
Proof.
  induction 1 as [|c cs Hc _ (IH1 & IH2 & IH3)]; [done|].
  destruct c; try done; simpl; auto.
Qed.

Lemma warnings_are_handlers (l : list string) :
  Forall (λ c, is_handler c = true)
    ((λ m, CHandleWarning (warning_message pathName m)) <$> l).
Proof. induction l; constructor; done. Qed.

(** From the [catch] on only [handleError] is called. *)
Lemma turns_catch_calls n reason s :
  ∃ tl,
    calls (turns pathName creator cache hE hW verbose (S n)
             (AwaitCatch reason, s)).2
    = calls s ++ tl ∧
    Forall (λ c, is_handler c = true) tl.
Proof.
  destruct (step_catch_cases pathName creator cache hE hW verbose s reason)
    as (s' & Hc & [Hs | [r' Hs]]);
    rewrite turns_succ, Hs, turns_settled by done;
    exists [CHandleError (error_message pathName reason)];
    (split; [done|by repeat constructor]).
Qed.

(** From the third [then] on only the handlers are called. *)
Lemma turns_report_calls n c s :
  ∃ tl,
    calls (turns pathName creator cache hE hW verbose (S (S n))
             (AwaitReport c, s)).2
    = calls s ++ tl ∧
    Forall (λ c, is_handler c = true) tl.
Proof.
  rewrite turns_succ.
  destruct (step_report_calls c s) as (l' & _ & Hc).
  destruct (step_report_cases pathName creator cache hE hW verbose c s)
    as [(s' & Hs & _) | (r & s' & Hs)]; rewrite Hs in *; simpl in Hc.
  - rewrite turns_settled by done. eexists. split; [exact Hc|].
    apply warnings_are_handlers.
  - destruct (turns_catch_calls n r s') as (tl & Hc' & Htl).
    exists (((λ m, CHandleWarning (warning_message pathName m)) <$> l') ++ tl).
    rewrite Hc', Hc, <- app_assoc. split; [done|].
    apply Forall_app. split; [apply warnings_are_handlers|done].
Qed.

End AloneFurther.

(** X1.  [readSass] always settles its promise: the two tests of the
    callback on [err] leave no case in which it would go on to read
    [result.css] of a failed render.  A render that succeeds is resolved with
    its text whatever [relativeTo] is. *)
Theorem readSass_always_settles pathName relativeTo s :
  (readSass pathName relativeTo s).1 ≠ Uncaught ∧
  ∀ css w,
    sass_render pathName (world (env s)) = (inr css, w) →
    (readSass pathName relativeTo s).1 = Resolve (Css css).
Proof.
  rewrite readSass_fst. split.
  - destruct (sass_render _ _) as [[err|css] w]; [|done]. simpl.
    destruct (truthy relativeTo), (is_root relativeTo); done.
  - intros css w Hr. by rewrite Hr.
Qed.

(** X2.  If render, generation or persist fails and [handleError] throws
    when it is called with the error message, the promise of [createTypings]
    is rejected with what [handleError] threw; [handleError] has been called
    once and [handleWarning] not at all. *)
Theorem createTypings_rejects_if_handleError_throws pathName creator cache
    hE hW verbose s reason reason' :
  pipeline_fails pathName creator cache (world (env s)) reason →
  throws_on hE (error_message pathName reason) reason' →
  let ts := createTypings_await pathName creator cache hE hW verbose s in
  ts.1 = Rejected reason' ∧
  ∃ delta, calls ts.2 = calls s ++ delta ∧
    List.filter is_handler delta
    = [CHandleError (error_message pathName reason)].
Proof.
  intros Hf Hh. unfold createTypings_await, createTypings, chain_length.
  destruct Hf as [w1 Hr | css w1 w2 Hr Hc | css w1 c w2 w3 Hr Hc Hw].
  - rewrite turns_succ; erewrite step_render_fail by exact Hr.
    rewrite turns_succ; erewrite step_catch_throws by exact Hh.
    rewrite turns_settled by done.
    split; [done|]. eexists. simpl. rewrite <- app_assoc. done.
  - rewrite turns_succ; erewrite step_render_ok by exact Hr.
    rewrite turns_succ; erewrite step_create_fail by exact Hc.
    rewrite turns_succ; erewrite step_catch_throws by exact Hh.
    rewrite turns_settled by done.
    split; [done|]. eexists. simpl. rewrite <- !app_assoc. done.
  - rewrite turns_succ; erewrite step_render_ok by exact Hr.
    rewrite turns_succ; erewrite step_create_ok by exact Hc.
    rewrite turns_succ; erewrite step_write_fail by exact Hw.
    rewrite turns_succ; erewrite step_catch_throws by exact Hh.
    rewrite turns_settled by done.
    split; [done|]. eexists. simpl. rewrite <- !app_assoc. done.
Qed.

(** X3.  If render, generation and persist succeed but [handleWarning]
    throws on the first warning of the artifact, the remaining warnings are
    not reported, [handleError] is called with what [handleWarning] threw,
    and the promise is resolved with no value although [writeFile] has been
    called, once. *)
Theorem createTypings_handleWarning_throws pathName creator cache hE hW
    verbose s c w' m l reason :
  pipeline_succeeds pathName creator cache (world (env s)) c w' →
  messageList c = Some (m :: l) →
  throws_on hW (warning_message pathName m) reason →
  returns hE →
  let ts := createTypings_await pathName creator cache hE hW verbose s in
  ts.1 = Resolved None ∧
  ∃ delta, calls ts.2 = calls s ++ delta ∧
    List.filter is_handler delta
    = [CHandleWarning (warning_message pathName m);
       CHandleError (error_message pathName reason)] ∧
    count_write delta = 1.
Proof.
  intros (css & w1 & d & w2 & Hr & Hc & Hw) Hm Hthrow Hret.
  unfold createTypings_await, createTypings, chain_length.
  rewrite turns_succ; erewrite step_render_ok by exact Hr.
  rewrite turns_succ; erewrite step_create_ok by exact Hc.
  rewrite turns_succ; erewrite step_write_ok by exact Hw.
  rewrite turns_succ.
  match goal with
  | |- context [task_step _ _ _ _ _ _ (AwaitReport c) ?s1] =>
      destruct (step_report_throws pathName creator cache hE hW verbose c s1
        m l reason Hm Hthrow) as (s' & Hs & Hcalls)
  end.
  rewrite Hs, turns_succ, step_catch, turns_settled by done.
  split; [done|]. eexists. simpl. rewrite Hcalls. simpl.
  rewrite <- !app_assoc. done.
Qed.

(** X4.  Whatever the handlers do, one pipeline starts its render first
    and once; it calls [creator.create] exactly when the render succeeded,
    once and with the rendered text, and [writeFile] exactly when
    [creator.create] succeeded, once and on what it returned. *)
Theorem createTypings_calls_in_step pathName creator cache hE hW verbose s :
  ∃ delta,
    calls (createTypings_await pathName creator cache hE hW verbose s).2
    = calls s ++ CSassRender pathName :: delta ∧
    List.filter is_render delta = [] ∧
    match sass_render pathName (world (env s)) with
    | (inl _, _) =>
        List.filter is_create delta = [] ∧ List.filter is_write delta = []
    | (inr css, w1) =>
        List.filter is_create delta
        = [CCreate creator pathName (Css css) cache] ∧
        match creator_create creator pathName (Css css) cache w1 with
        | (inl _, _) => List.filter is_write delta = []
        | (inr d, _) => List.filter is_write delta = [CWriteFile d]
        end
    end.
Proof.
  unfold createTypings_await, createTypings, chain_length.
  rewrite turns_succ.
  destruct (sass_render pathName (world (env s))) as [[r|css] w1] eqn:Hr.
  { erewrite step_render_fail by exact Hr.
    match goal with
    | |- context [turns _ _ _ _ _ _ (S ?n) (AwaitCatch r, ?s1)] =>
        destruct (turns_catch_calls pathName creator cache hE hW verbose n r
          s1) as (tl & Hc & Htl)
    end.
    destruct (handlers_only tl Htl) as (? & ? & ?).
    exists tl. rewrite Hc. simpl. by rewrite <- app_assoc. }
  erewrite step_render_ok by exact Hr. rewrite turns_succ.
  destruct (creator_create creator pathName (Css css) cache w1)
    as [[r|d] w2] eqn:Hc.
  { erewrite step_create_fail by exact Hc.
    match goal with
    | |- context [turns _ _ _ _ _ _ (S ?n) (AwaitCatch r, ?s1)] =>
        destruct (turns_catch_calls pathName creator cache hE hW verbose n r
          s1) as (tl & Hc' & Htl)
    end.
    destruct (handlers_only tl Htl) as (Hf1 & Hf2 & Hf3).
    exists (CCreate creator pathName (Css css) cache :: tl).
    rewrite Hc'. simpl. rewrite <- !app_assoc. simpl.
    by rewrite Hf1, Hf2, Hf3. }
  erewrite step_create_ok by exact Hc. rewrite turns_succ.
  destruct (draft_writeFile d w2) as [[r|c] w3] eqn:Hw.
  { erewrite step_write_fail by exact Hw.
    match goal with
    | |- context [turns _ _ _ _ _ _ (S ?n) (AwaitCatch r, ?s1)] =>
        destruct (turns_catch_calls pathName creator cache hE hW verbose n r
          s1) as (tl & Hc' & Htl)
    end.
    destruct (handlers_only tl Htl) as (Hf1 & Hf2 & Hf3).
    exists (CCreate creator pathName (Css css) cache :: CWriteFile d :: tl).
    rewrite Hc'. simpl. rewrite <- !app_assoc. simpl.
    by rewrite Hf1, Hf2, Hf3. }
  erewrite step_write_ok by exact Hw.
  match goal with
  | |- context [turns _ _ _ _ _ _ (S (S ?n)) (AwaitReport c, ?s1)] =>
      destruct (turns_report_calls pathName creator cache hE hW verbose n c
        s1) as (tl & Hc' & Htl)
  end.
  destruct (handlers_only tl Htl) as (Hf1 & Hf2 & Hf3).
  exists (CCreate creator pathName (Css css) cache :: CWriteFile d :: tl).
  rewrite Hc'. simpl. rewrite <- !app_assoc. simpl.
  by rewrite Hf1, Hf2, Hf3.
Qed.

(** ** More on the turns under the counting handlers *)

Lemma pipeline_call_no_render (cs : list Call) :
  Forall pipeline_call cs → List.filter is_render cs = [].
Proof.
  induction 1 as [|c cs Hc _ IH]; [done|]. by destruct c.
Qed.

Lemma pipeline_call_warnings pathName (l : list string) :
  Forall pipeline_call
    ((λ m, CHandleWarning (warning_message pathName m)) <$> l).
Proof. induction l; constructor; done. Qed.

Lemma count_create_app cs1 cs2 :
  count_create (cs1 ++ cs2) = count_create cs1 + count_create cs2.
Proof. unfold count_create. by rewrite List.filter_app, length_app. Qed.

Lemma count_write_app cs1 cs2 :
  count_write (cs1 ++ cs2) = count_write cs1 + count_write cs2.
Proof. unfold count_write. by rewrite List.filter_app, length_app. Qed.

Lemma count_warnings pathName (f : Call → bool) (l : list string) :
  (∀ m, f (CHandleWarning m) = false) →
  length
    (List.filter f
       ((λ m, CHandleWarning (warning_message pathName m)) <$> l)) = 0.
Proof. intros Hf. induction l; simpl; by rewrite ?Hf. Qed.

Section CountingFurther.
Variables (pathName : string) (creator : Creator) (cache : bool)
  (verbose : bool) (k : nat).

Local Abbreviation cstep :=
  (task_step pathName creator cache (handleError k) (handleWarning k)
     verbose).

(** One turn under the counting handlers, call by call. *)
Lemma cstep_more t s :
  alive t = true →
  carries_text t →
  ∃ delta out,
    calls (cstep t s).2 = calls s ++ delta ∧
    console (env (cstep t s).2) = console (env s) ++ out ∧
    carries_text (cstep t s).1 ∧
    Forall pipeline_call delta ∧
    count_create delta + before_create (cstep t s).1 ≤ before_create t ∧
    count_write delta + awaits_write (cstep t s).1
    ≤ count_create delta + awaits_write t ∧
    holds_artifact (cstep t s).1 ≤ holds_artifact t + count_write delta ∧
    resolved_warnings (cstep t s).1
    = resolved_warnings t + count_onWarning delta ∧
    resolved_empty (cstep t s).1 = resolved_empty t + count_onError delta.
Proof.
  intros Ht Hx. destruct t as [|content|c|c|reason|v|reason|]; try done.
  - exists [], []. unfold task_step, readSass_settle.
    destruct (sass_render _ _) as [[r|css] w]; simpl;
      rewrite !app_nil_r; split_and!; (done || lia).
  - exists [CCreate creator pathName content cache], [].
    unfold task_step, then_create, bind, log_call, ext. simpl.
    destruct content as [css|]; [|done].
    destruct (creator_create _ _ _ _ _) as [[r|d] w]; simpl;
      rewrite !app_nil_r; split_and!;
      (done || (unfold count_create, count_write; simpl; lia)
       || by repeat constructor).
  - exists [CWriteFile c], [].
    unfold task_step, then_writeFile, bind, log_call, ext. simpl.
    destruct (draft_writeFile _ _) as [[r|d] w]; simpl;
      rewrite !app_nil_r; split_and!;
      (done || (unfold count_create, count_write; simpl; lia)
       || by repeat constructor).
  - eexists _, _. rewrite cstep_report. simpl.
    rewrite count_onWarning_warnings, count_onError_warnings.
    unfold count_create, count_write.
    rewrite !count_warnings by done.
    split_and!; [done|done|done|apply pipeline_call_warnings|lia..].
  - eexists _, _. rewrite cstep_catch. simpl.
    split_and!;
      (done || (unfold count_create, count_write; simpl; lia)
       || by repeat constructor).
  - exists [], []. simpl. rewrite !app_nil_r.
    split_and!; (done || lia).
Qed.

End CountingFurther.

(** ** More on batches *)

Lemma total_insert (f : Task → nat) (ts : list (string * Task)) i p t t' :
  ts !! i = Some (p, t) →
  total f (<[i := (p, t')]> ts) + f t = total f ts + f t'.
Proof.
  unfold total. revert i. induction ts as [|[q u] ts IH]; intros i; [done|].
  destruct i as [|i]; intros Hi.
  - injection Hi as -> ->.
    change (<[0:=(p, t')]> ((p, t) :: ts)) with ((p, t') :: ts).
    rewrite !fmap_cons. generalize ((λ pt, f pt.2) <$> ts).
    intros l. simpl. lia.
  - change (<[S i:=(p, t')]> ((q, u) :: ts))
      with ((q, u) :: <[i:=(p, t')]> ts).
    rewrite !fmap_cons. specialize (IH i Hi). revert IH.
    generalize ((λ pt, f pt.2) <$> <[i:=(p, t')]> ts).
    generalize ((λ pt, f pt.2) <$> ts).
    intros l1 l2. simpl. lia.
Qed.

Lemma total_launch (f : Task → nat) (pathNames : list string) :
  total f ((λ p, (p, AwaitRender)) <$> pathNames)
  = length pathNames * f AwaitRender.
Proof.
  unfold total. induction pathNames as [|p l IH]; [done|].
  rewrite !fmap_cons. revert IH.
  generalize ((λ pt : string * Task, f pt.2)
                <$> ((λ p, (p, AwaitRender)) <$> l)).
  intros l0 IH. simpl. by rewrite IH.
Qed.

(** Once every promise is resolved, each one holds an artifact or nothing. *)
Lemma total_resolved (ts : list (string * Task)) :
  Forall (λ t, alive t = true ∧ rank t = 0) (snd <$> ts) →
  total before_create ts = 0 ∧ total awaits_write ts = 0 ∧
  total holds_artifact ts + total resolved_empty ts = length ts.
Proof.
  unfold total. induction ts as [|[p t] ts IH]; [done|].
  rewrite !fmap_cons, Forall_cons. intros [[Ha Hr] Hts].
  destruct (IH Hts) as (IH1 & IH2 & IH3). revert IH1 IH2 IH3.
  generalize ((λ pt : string * Task, before_create pt.2) <$> ts).
  generalize ((λ pt : string * Task, awaits_write pt.2) <$> ts).
  generalize ((λ pt : string * Task, holds_artifact pt.2) <$> ts).
  generalize ((λ pt : string * Task, resolved_empty pt.2) <$> ts).
  intros l1 l2 l3 l4 IH1 IH2 IH3.
  destruct t as [| | | | |[c|]| |]; try done; simpl in *; lia.
Qed.

Section BatchesFurther.
Variables (creator : Creator) (cache : bool) (verbose : bool) (k : nat).

Local Abbreviation bstep := (batch_step creator cache verbose k).
Local Abbreviation brun := (batch_run creator cache verbose k).

Lemma batch_launch_shape pathNames s :
  batch_shape (calls s) pathNames
    (batch_launch creator cache verbose k pathNames s).
Proof.
  rewrite batch_launch_eq. split; cbn [b_tasks b_state calls].
  - apply Forall_fmap, Forall_true. done.
  - exists []. rewrite !total_launch, app_nil_r. simpl.
    split_and!; (done || lia).
Qed.

Lemma batch_step_shape cs0 cs1 pathNames b i :
  batch_inv cache k cs0 pathNames b →
  batch_shape cs1 pathNames b →
  batch_shape cs1 pathNames (bstep b i).
Proof.
  intros (_ & Ha & _) (Hx & rest & Hc & Hp & H1 & H2 & H3 & H4 & H5).
  unfold batch_step.
  destruct (b_tasks b !! i) as [[p t]|] eqn:Hi;
    [|by split; [|exists rest]].
  assert (alive t = true) as Ht
    by apply (Forall_lookup_1 _ _ _ _ Ha Hi).
  assert (carries_text t) as Hxt
    by apply (Forall_lookup_1 _ _ _ _ Hx Hi).
  destruct (cstep_more p creator cache verbose k t (b_state b) Ht Hxt)
    as (delta & out & Hc' & _ & Hx' & Hp' & G1 & G2 & G3 & G4 & G5).
  destruct (task_step _ _ _ _ _ _ _ _) as [t' s'].
  cbn [b_tasks b_state fst snd] in *.
  pose proof (total_insert before_create _ i p t t' Hi).
  pose proof (total_insert awaits_write _ i p t t' Hi).
  pose proof (total_insert holds_artifact _ i p t t' Hi).
  pose proof (total_insert resolved_warnings _ i p t t' Hi).
  pose proof (total_insert resolved_empty _ i p t t' Hi).
  split; cbn [b_tasks b_state].
  - by apply Forall_insert.
  - exists (rest ++ delta).
    rewrite count_create_app, count_write_app, count_onWarning_app,
      count_onError_app.
    split_and!; [|by apply Forall_app|lia..].
    by rewrite Hc', Hc, <- !app_assoc.
Qed.

Lemma batch_run_shape cs0 cs1 pathNames sched b :
  batch_inv cache k cs0 pathNames b →
  batch_shape cs1 pathNames b →
  batch_shape cs1 pathNames (brun sched b).
Proof.
  revert b. induction sched as [|i sched IH]; intros b Hb Hs; [done|].
  simpl. apply IH; [by apply batch_step_inv|by eapply batch_step_shape].
Qed.

Lemma batch_step_frame cs0 pathNames cyc0 con0 b i :
  batch_inv cache k cs0 pathNames b →
  (∀ pt, pt ∈ b_tasks b → carries_text pt.2) →
  batch_frame k cyc0 con0 b →
  batch_frame k cyc0 con0 (bstep b i).
Proof.
  intros (_ & Ha & _) Hx (Hlen & Htake & out & Hcon). unfold batch_step.
  destruct (b_tasks b !! i) as [[p t]|] eqn:Hi;
    [|by split_and!; [..|exists out]].
  assert (alive t = true) as Ht
    by apply (Forall_lookup_1 _ _ _ _ Ha Hi).
  assert (carries_text t) as Hxt
    by (apply (Hx (p, t)), list_elem_of_lookup; eauto).
  destruct (cstep_spec p creator cache verbose k t (b_state b) Ht)
    as (delta & _ & _ & _ & Hk & _).
  destruct (cstep_more p creator cache verbose k t (b_state b) Ht Hxt)
    as (_ & out' & _ & Hcon' & _).
  destruct (task_step _ _ _ _ _ _ _ _) as [t' s'].
  cbn [b_tasks b_state fst snd] in *.
  split_and!; cbn [b_state].
  - by rewrite Hk, length_alter.
  - by rewrite Hk, take_alter_ge.
  - exists (out ++ out'). by rewrite Hcon', Hcon, <- app_assoc.
Qed.

Lemma batch_run_frame cs0 cs1 pathNames cyc0 con0 sched b :
  batch_inv cache k cs0 pathNames b →
  batch_shape cs1 pathNames b →
  batch_frame k cyc0 con0 b →
  batch_frame k cyc0 con0 (brun sched b).
Proof.
  revert b. induction sched as [|i sched IH]; intros b Hb Hs Hf; [done|].
  simpl. apply IH; [by apply batch_step_inv|by eapply batch_step_shape|].
  eapply batch_step_frame; [done| |done].
  destruct Hs as (Hx & _). intros pt Hin.
  by apply (proj1 (Forall_forall _ _) Hx).
Qed.

End BatchesFurther.

(** Everything known about a batch when [Promise.all] is about to settle. *)
Lemma batch_settle_more creator cache verbose pathNames sched s :
  ∃ b,
    batch_settle creator cache verbose pathNames sched s
    = (length (cycles (env s)), b) ∧
    batch_inv cache (length (cycles (env s))) (calls s) pathNames b ∧
    Forall (λ t, alive t = true ∧ rank t = 0) (snd <$> b_tasks b) ∧
    batch_shape (calls s) pathNames b ∧
    batch_frame (length (cycles (env s))) (cycles (env s)) (console (env s))
      b.
Proof.
  destruct (batch_settle_spec creator cache verbose pathNames sched s)
    as (b & Hb & Hinv & Hres).
  exists b. split_and!; [done..| |].
  all: unfold batch_settle, new_counters in Hb; injection Hb as <-.
  all: set (s1 := set_env _ s).
  all: assert (batch_inv cache (length (cycles (env s))) (calls s) pathNames
    (batch_launch creator cache verbose (length (cycles (env s)))
       pathNames s1)) as Hl
    by (apply (batch_launch_inv creator cache verbose _ pathNames s1);
        subst s1; simpl; by rewrite list_lookup_middle).
  all: pose proof (batch_launch_shape creator cache verbose
    (length (cycles (env s))) pathNames s1) as Hs.
  - by eapply batch_run_shape.
  - eapply batch_run_frame; [done..|].
    rewrite batch_launch_eq. subst s1. split_and!; simpl.
    + rewrite length_app. simpl. lia.
    + by rewrite take_app_length.
    + exists []. by rewrite app_nil_r.
Qed.

Lemma count_renders (f : Call → bool) (pathNames : list string) :
  (∀ p, f (CSassRender p) = false) →
  length (List.filter f (CSassRender <$> pathNames)) = 0.
Proof. intros Hf. induction pathNames; simpl; by rewrite ?Hf. Qed.

Lemma insert_last {A} (l : list A) k x :
  length l = S k → <[k := x]> l = take k l ++ [x].
Proof.
  intros Hl. apply list_eq. intros i.
  destruct (decide (i = k)) as [->|Hne].
  - rewrite list_lookup_insert_eq by lia.
    rewrite lookup_app_r by (rewrite length_take; lia).
    rewrite length_take, Nat.min_l by lia. by rewrite Nat.sub_diag.
  - rewrite list_lookup_insert_ne by done.
    destruct (decide (i < k)) as [Hlt|Hge].
    + rewrite lookup_app_l by (rewrite length_take; lia).
      by rewrite lookup_take_lt.
    + rewrite lookup_ge_None_2 by lia. symmetry.
      apply lookup_ge_None_2. rewrite length_app, length_take. simpl. lia.
Qed.

Lemma batch_run_nil creator cache verbose k sched b :
  b_tasks b = [] → batch_run creator cache verbose k sched b = b.
Proof.
  intros Hb. induction sched as [|i sched IH]; [done|].
  assert (batch_step creator cache verbose k b i = b) as Hi
    by (unfold batch_step; by rewrite Hb).
  simpl. by rewrite Hi.
Qed.

(** X5.  A batch starts the render of every path, in the order of the list,
    before any callback of any pipeline runs: these are the first calls it
    makes, and it starts no other render. *)
Theorem createTypingsForFiles_renders_first creator cache verbose pathNames
    sched s :
  ∃ rest,
    calls (createTypingsForFiles creator cache verbose pathNames sched s).2
    = calls s ++ (CSassRender <$> pathNames) ++ rest ∧
    List.filter is_render rest = [].
Proof.
  rewrite createTypingsForFiles_eq.
  destruct (batch_settle_more creator cache verbose pathNames sched s)
    as (b & -> & _ & _ & (_ & rest & Hc & Hp & _) & _).
  exists rest. cbn [fst snd]. rewrite onComplete_files_calls.
  split; [done|]. by apply pipeline_call_no_render.
Qed.

(** X6.  The counters a batch reads on completion are sums over its files:
    the warnings are the warnings of the artifacts its promises are resolved
    with, the errors are the promises resolved with no value; and every one
    of the paths ends as an artifact or as one error. *)
Theorem createTypingsForFiles_counters_are_sums creator cache verbose
    pathNames sched s :
  let kb := batch_settle creator cache verbose pathNames sched s in
  let c := read_counters kb.1 (env (b_state kb.2)) in
  warnings c = total resolved_warnings (b_tasks kb.2) ∧
  errors c = total resolved_empty (b_tasks kb.2) ∧
  total holds_artifact (b_tasks kb.2) + errors c = length pathNames.
Proof.
  destruct (batch_settle_more creator cache verbose pathNames sched s)
    as (b & Hb & (Hp & _ & new & Hc & Hk & _) & Hres &
        (_ & rest & Hc' & _ & _ & _ & _ & Hw & He) & _).
  rewrite Hb. cbn [fst snd]. unfold read_counters. rewrite Hk. simpl.
  rewrite Hc in Hc'. apply app_inv_head in Hc'. subst new.
  assert (count_onWarning (CSassRender <$> pathNames) = 0) as Hw0
    by by apply count_renders.
  assert (count_onError (CSassRender <$> pathNames) = 0) as He0
    by by apply count_renders.
  rewrite count_onWarning_app, count_onError_app, Hw0, He0. simpl.
  destruct (total_resolved _ Hres) as (_ & _ & Hsum).
  rewrite <- Hp, length_fmap, Hw, He. done.
Qed.

(** X7.  In a batch the generation engine is never called more often than
    there are paths, [writeFile] never more often than the generation engine,
    and no more promises are resolved with an artifact than [writeFile] was
    called. *)
Theorem createTypingsForFiles_calls_bounded creator cache verbose pathNames
    sched s :
  let b := (batch_settle creator cache verbose pathNames sched s).2 in
  ∃ new,
    calls (createTypingsForFiles creator cache verbose pathNames sched s).2
    = calls s ++ new ∧
    total holds_artifact (b_tasks b) ≤ count_write new ∧
    count_write new ≤ count_create new ∧
    count_create new ≤ length pathNames.
Proof.
  rewrite createTypingsForFiles_eq.
  destruct (batch_settle_more creator cache verbose pathNames sched s)
    as (b & -> & _ & _ & (_ & rest & Hc & _ & H1 & H2 & H3 & _) & _).
  exists ((CSassRender <$> pathNames) ++ rest). cbn [fst snd].
  assert (count_create (CSassRender <$> pathNames) = 0) as Hc0
    by by apply count_renders.
  assert (count_write (CSassRender <$> pathNames) = 0) as Hw0
    by by apply count_renders.
  rewrite onComplete_files_calls, count_create_app, count_write_app, Hc0,
    Hw0. simpl.
  split_and!; [done|lia..].
Qed.

(** X8.  When a batch is over, the counters that were allocated before it
    are as they were, and its own pair, the only one it allocated, is back at
    zero. *)
Theorem createTypingsForFiles_counters_frame creator cache verbose pathNames
    sched s :
  cycles
    (env (createTypingsForFiles creator cache verbose pathNames sched s).2)
  = cycles (env s) ++ [{| warnings := 0; errors := 0 |}].
Proof.
  rewrite createTypingsForFiles_eq.
  destruct (batch_settle_more creator cache verbose pathNames sched s)
    as (b & -> & _ & _ & _ & (Hlen & Htake & _)).
  cbn [fst snd]. unfold onComplete_files, reset_counters.
  destruct (0 <? _); simpl; by rewrite insert_last, Htake.
Qed.

(** X9.  For the empty list of paths a batch does nothing that can be
    seen, whatever the schedule: no call, no line on the console, the world
    untouched; it only allocates its counters. *)
Theorem createTypingsForFiles_nil creator cache verbose sched s :
  createTypingsForFiles creator cache verbose [] sched s
  = (AllResolved,
     {| env :=
          {| world := world (env s); console := console (env s);
             cycles := cycles (env s) ++ [{| warnings := 0; errors := 0 |}] |};
        calls := calls s |}).
Proof.
  unfold createTypingsForFiles, batch_settle, new_counters.
  rewrite batch_run_nil by done. simpl.
  unfold onComplete_files, read_counters, reset_counters. simpl.
  rewrite list_lookup_middle by done. simpl.
  rewrite insert_last by (rewrite length_app; simpl; lia).
  by rewrite take_app_length.
Qed.

(** ** More on watch sessions *)

Lemma work_call_no_create_empty (cs : list Call) creator pathName content
    cache :
  Forall work_call cs →
  CCreate creator pathName content cache ∈ cs →
  ∃ css, content = Css css.
Proof.
  intros Hf Hin. apply (proj1 (Forall_forall _ _) Hf) in Hin as [Hr|Hp];
    [done|]. destruct content; [eauto|done].
Qed.

Section WatchingFurther.
Variables (creator : Creator) (cache : bool) (verbose : bool).
Variables (cs0 : list Call) (cyc0 : list Counters)
  (con0 : list (Level * ConsoleArg)).

Local Abbreviation wstep := (watch_step creator cache verbose).
Local Abbreviation wrun := (watch_run creator cache verbose).
Local Abbreviation winv := (watch_inv cache (length cyc0) cs0).
Local Abbreviation wshape := (watch_shape cs0 cyc0 con0).

Lemma watch_fire_shape w pathName :
  winv w → wshape w →
  wshape (createTypingsForFileOnWatch creator cache verbose pathName w).
Proof.
  intros (Hlen & _) (Hx & Htake & (out & Hcon) & new & Hc & Hr & Hw).
  unfold createTypingsForFileOnWatch, new_counters, createTypings.
  split_and!; cbn [w_acts w_state env cycles console set_env set_cycles
    readSass_start record calls].
  - apply Forall_app. split; [done|]. by repeat constructor.
  - rewrite take_app_le by lia. done.
  - by exists out.
  - exists (new ++ [CSassRender pathName]).
    rewrite Hc, <- app_assoc, List.filter_app, Hr, !fmap_app.
    split_and!; [done|done|].
    apply Forall_app. split; [done|]. constructor; [by left|done].
Qed.

Lemma watch_turn_paths w i :
  a_path <$> w_acts (watch_turn creator cache verbose i w)
  = a_path <$> w_acts w.
Proof.
  unfold watch_turn. destruct (w_acts w !! i) as [a|] eqn:Hi; [|done].
  destruct (a_done a); [done|].
  destruct (a_task a); try destruct (task_step _ _ _ _ _ _ _ _);
    cbn [w_acts]; rewrite list_fmap_insert; simpl;
    apply list_insert_id; by rewrite list_lookup_fmap, Hi.
Qed.

Lemma watch_turn_shape w i :
  winv w → wshape w → wshape (watch_turn creator cache verbose i w).
Proof.
  intros Hw Hs. pose proof Hw as (Hlen & Hacts & _).
  pose proof Hs as (Hx & Htake & (out & Hcon) & new & Hc & Hr & Hwk).
  assert (∀ s' (a' : Activation) delta out',
    carries_text (a_task a') →
    take (length cyc0) (cycles (env s')) = cyc0 →
    console (env s') = console (env (w_state w)) ++ out' →
    calls s' = calls (w_state w) ++ delta →
    Forall pipeline_call delta →
    a_path <$> <[i := a']> (w_acts w) = a_path <$> w_acts w →
    wshape {| w_acts := <[i := a']> (w_acts w); w_state := s' |}) as Hupd.
  { intros s' a' delta out' Hx' Htake' Hcon' Hc' Hp' Hpaths.
    split_and!; cbn [w_acts w_state].
    - by apply Forall_insert.
    - done.
    - exists (out ++ out'). by rewrite Hcon', Hcon, <- app_assoc.
    - exists (new ++ delta). rewrite Hc', Hc, <- app_assoc, List.filter_app,
        Hr, (pipeline_call_no_render _ Hp'), app_nil_r, Hpaths.
      split_and!; [done|done|]. apply Forall_app. split; [done|].
      eapply Forall_impl; [exact Hp'|]. intros c ?. by right. }
  pose proof (watch_turn_paths w i) as Hpaths. revert Hpaths.
  unfold watch_turn.
  destruct (w_acts w !! i) as [a|] eqn:Hi; [|done].
  destruct (a_done a) eqn:Hd; [done|].
  destruct (Hacts i a Hi) as (Hk & Hal & _).
  assert (carries_text (a_task a)) as Hxa
    by apply (Forall_lookup_1 _ _ _ _ Hx Hi).
  assert (∀ t', a_task a = t' → (∀ v, t' ≠ Resolved v) →
    a_path <$>
      w_acts
        (let '(t', s') :=
           task_step (a_path a) creator cache (handleError (a_cycle a))
             (handleWarning (a_cycle a)) verbose t' (w_state w) in
         {| w_acts :=
              <[i := {| a_path := a_path a; a_cycle := a_cycle a;
                        a_task := t'; a_done := false |}]> (w_acts w);
            w_state := s' |})
    = a_path <$> w_acts w →
    wshape
      (let '(t', s') :=
         task_step (a_path a) creator cache (handleError (a_cycle a))
           (handleWarning (a_cycle a)) verbose t' (w_state w) in
       {| w_acts :=
            <[i := {| a_path := a_path a; a_cycle := a_cycle a;
                      a_task := t'; a_done := false |}]> (w_acts w);
          w_state := s' |})) as Hstep.
  { intros t' <- _.
    destruct (cstep_spec (a_path a) creator cache verbose (a_cycle a)
      (a_task a) (w_state w) Hal) as (delta0 & _ & _ & _ & Hk' & _).
    destruct (cstep_more (a_path a) creator cache verbose (a_cycle a)
      (a_task a) (w_state w) Hal Hxa)
      as (delta & out' & Hc' & Hcon' & Hx' & Hp' & _).
    destruct (task_step _ _ _ _ _ _ _ _) as [t' s']. cbn [fst snd w_acts] in *.
    intros Hpaths. eapply Hupd; try done.
    rewrite Hk', take_alter_ge by lia. done. }
  destruct (a_task a) as [| | | | |v| |] eqn:Ht;
    try (by apply Hstep).
  cbn [w_acts]. intros Hpaths.
  eapply (Hupd _ _ [] _); try done.
  - unfold onComplete_watch, reset_counters.
    destruct (0 <? _); simpl; rewrite take_insert_ge by lia; done.
  - apply onComplete_watch_console.
  - simpl. by rewrite app_nil_r.
Qed.

Lemma watch_step_shape w a : winv w → wshape w → wshape (wstep w a).
Proof.
  intros Hw Hs. destruct a as [[] p|i]; simpl;
    auto using watch_fire_shape, watch_turn_shape.
Qed.

Lemma watch_run_shape actions w : winv w → wshape w → wshape (wrun actions w).
Proof.
  revert w. induction actions as [|a l IH]; intros w Hw Hs; [done|].
  simpl. apply IH; [by apply watch_step_inv|by apply watch_step_shape].
Qed.

Lemma watch_run_paths actions w :
  a_path <$> w_acts (wrun actions w)
  = (a_path <$> w_acts w) ++ fired actions.
Proof.
  revert w. induction actions as [|a l IH]; intros w.
  - by rewrite app_nil_r.
  - simpl. rewrite IH. destruct a as [[] p|i]; simpl.
    + unfold createTypingsForFileOnWatch. simpl.
      by rewrite fmap_app, <- app_assoc.
    + unfold createTypingsForFileOnWatch. simpl.
      by rewrite fmap_app, <- app_assoc.
    + by rewrite watch_turn_paths.
Qed.

Lemma fired_drain n : fired (watch_drain n) = [].
Proof.
  induction n as [|n IH]; [done|].
  rewrite watch_drain_S. unfold fired in *. rewrite omap_app, IH. simpl.
  generalize (S chain_length). intros m. induction m; simpl; done.
Qed.

End WatchingFurther.

(** Everything known about a watch session that has run dry. *)
Lemma watch_session_more creator cache verbose actions s :
  let w := watch_session creator cache verbose actions s in
  watch_inv cache (length (cycles (env s))) (calls s) w ∧
  watch_shape (calls s) (cycles (env s)) (console (env s)) w ∧
  a_path <$> w_acts w = fired actions.
Proof.
  assert (watch_shape (calls s) (cycles (env s)) (console (env s))
    {| w_acts := []; w_state := s |}) as Hs0.
  { split_and!; simpl.
    - done.
    - by rewrite take_ge.
    - exists []. by rewrite app_nil_r.
    - exists []. by rewrite app_nil_r. }
  pose proof (watch_init_inv cache s) as Hi0.
  unfold watch_session. cbv zeta.
  remember (watch_run creator cache verbose actions _) as w1 eqn:Ew.
  assert (watch_inv cache (length (cycles (env s))) (calls s) w1) as Hi1
    by (subst w1; by apply watch_run_inv).
  assert (watch_shape (calls s) (cycles (env s)) (console (env s)) w1) as Hs1
    by (subst w1; by apply watch_run_shape).
  assert (a_path <$> w_acts w1 = fired actions) as Hp1
    by (subst w1; by rewrite watch_run_paths).
  clear Ew. split_and!.
  - by apply watch_run_inv.
  - by apply watch_run_shape.
  - by rewrite watch_run_paths, Hp1, fired_drain, app_nil_r.
Qed.

(** X10.  In a watch session every event delivered by the watcher starts
    exactly one render, of the path of the event, at the moment it is
    delivered; no callback ever starts another one. *)
Theorem watch_session_one_render_per_event creator cache verbose actions s :
  let w := watch_session creator cache verbose actions s in
  a_path <$> w_acts w = fired actions ∧
  ∃ new,
    calls (w_state w) = calls s ++ new ∧
    List.filter is_render new = CSassRender <$> fired actions.
Proof.
  destruct (watch_session_more creator cache verbose actions s)
    as (_ & (_ & _ & _ & new & Hc & Hr & _) & Hp).
  cbv zeta. split; [done|]. exists new. by rewrite <- Hp.
Qed.

(** X11.  When a watch session has run dry, the counters that were
    allocated before it are as they were, and it has allocated one pair per
    event, each of which is back at zero. *)
Theorem watch_session_counters_frame creator cache verbose actions s :
  cycles (env (w_state (watch_session creator cache verbose actions s)))
  = cycles (env s) ++
      replicate (length (fired actions)) {| warnings := 0; errors := 0 |}.
Proof.
  destruct (watch_session_more creator cache verbose actions s)
    as ((Hlen & Hacts & _) & (_ & Htake & _) & Hp).
  cbv zeta in *.
  set (w := watch_session creator cache verbose actions s) in *.
  assert (length (w_acts w) = length (fired actions)) as Hn
    by by rewrite <- Hp, length_fmap.
  apply list_eq. intros i.
  destruct (decide (i < length (cycles (env s)))) as [Hlt|Hge].
  - rewrite lookup_app_l by done.
    symmetry. rewrite <- Htake. by apply lookup_take_lt.
  - rewrite lookup_app_r by lia.
    destruct (decide (i < length (cycles (env s)) + length (w_acts w)))
      as [Hlt'|Hge'].
    + destruct (lookup_lt_is_Some_2 (w_acts w)
        (i - length (cycles (env s)))) as [a Ha]; [lia|].
      destruct (Hacts _ a Ha) as (_ & _ & _ & Hcell).
      rewrite (watch_session_done creator cache verbose actions s _ a Ha)
        in Hcell.
      replace (length (cycles (env s)) + (i - length (cycles (env s))))
        with i in Hcell by lia.
      rewrite Hcell. symmetry. apply lookup_replicate_2. lia.
    + rewrite lookup_ge_None_2 by lia. symmetry.
      apply lookup_ge_None_2. rewrite length_replicate. lia.
Qed.

(** ** More on the mode selector *)

Lemma createTypingsForFiles_work creator cache verbose pathNames sched s :
  ∃ new,
    calls (createTypingsForFiles creator cache verbose pathNames sched s).2
    = calls s ++ new ∧
    Forall work_call new.
Proof.
  rewrite createTypingsForFiles_eq.
  destruct (batch_settle_more creator cache verbose pathNames sched s)
    as (b & -> & _ & _ & (_ & rest & Hc & Hp & _) & _).
  exists ((CSassRender <$> pathNames) ++ rest). cbn [fst snd].
  rewrite onComplete_files_calls. split; [done|].
  apply Forall_app. split.
  - apply Forall_fmap, Forall_true. intros p. by left.
  - eapply Forall_impl; [exact Hp|]. intros c ?. by right.
Qed.

Lemma glob_callback_work creator cache verbose sched err pathNames s :
  ∃ new,
    calls (glob_callback creator cache verbose sched err pathNames s)
    = calls s ++ new ∧
    Forall work_call new.
Proof.
  unfold glob_callback.
  destruct err as [e|]; [exists []; by rewrite app_nil_r|].
  destruct pathNames as [[|p l]|]; try (exists []; by rewrite app_nil_r).
  match goal with
  | |- context [createTypingsForFiles ?c ?f ?v ?l ?sc ?st] =>
      destruct (createTypingsForFiles_work c f v l sc st) as (new & Hc & Hw)
  end.
  by exists new.
Qed.

(** The calls of a run of [main], by whether it gets past its early
    returns. *)
Lemma main_shape argv sched actions s :
  ∃ new,
    calls (main argv sched actions s) = calls s ++ new ∧
    if passes_guards argv s then
      ∃ rest, new = mode_call argv :: rest ∧ Forall work_call rest
    else
      (new = [] ∨ new = [CShowHelp]) ∧
      env (main argv sched actions s) = env s ∨
      new = [] ∧
      ∃ line, env (main argv sched actions s) = print Error line (env s).
Proof.
  unfold main, passes_guards, mode_call.
  destruct (argv_h argv); cbn [negb andb];
    [exists [CShowHelp]; split; [done|]; left; split; [by right|done]|].
  destruct (argv_inputDir argv) as [searchDir|];
    [|exists [CShowHelp]; split; [done|]; left; split; [by right|done]].
  destruct (fs_existsSync _ _); cbn [negb];
    [|exists []; split; [by rewrite app_nil_r|]; right; split; [done|];
      by eexists].
  cbn [default]. destruct (argv_w argv); cbn [negb].
  - match goal with
    | |- context [watch_session ?c ?f ?v ?a ?st] =>
        destruct (watch_session_more c f v a st)
          as (_ & (_ & _ & _ & new & Hc & _ & Hw) & _)
    end.
    cbv zeta in Hc. eexists. rewrite Hc. simpl. rewrite <- app_assoc.
    split; [done|]. by eexists.
  - cbn [record env world].
    destruct (glob_expand _ _ _) as [[err pathNames] w].
    match goal with
    | |- context [glob_callback ?c ?f ?v ?sc ?e ?l ?st] =>
        destruct (glob_callback_work c f v sc e l st) as (new & Hc & Hw)
    end.
    eexists. rewrite Hc. simpl. rewrite <- app_assoc.
    split; [done|]. by eexists.
Qed.

(** X12.  When [main] stops at one of its early returns: if help is
    requested or no input directory is given, it shows the help, once, and
    prints nothing; otherwise the input directory does not exist, and it
    shows no help and prints that the directory does not exist, in red, with
    [console.error].  In both cases it calls neither [glob] nor the watcher
    nor any part of a pipeline, allocates no counters and leaves the world
    as it is. *)
Theorem main_stops_at_guards argv sched actions s :
  passes_guards argv s = false →
  let s' := main argv sched actions s in
  cycles (env s') = cycles (env s) ∧
  world (env s') = world (env s) ∧
  (argv_h argv = true ∨ argv_inputDir argv = None →
   calls s' = calls s ++ [CShowHelp] ∧
   console (env s') = console (env s)) ∧
  (∀ searchDir,
     argv_h argv = false →
     argv_inputDir argv = Some searchDir →
     fs_existsSync searchDir (world (env s)) = false ∧
     calls s' = calls s ∧
     console (env s')
     = console (env s) ++
         [(Error,
           Text (chalk_red ("Error: Input directory " +:+ searchDir
                            +:+ " doesn't exist.")))]).
Proof.
  unfold passes_guards, main.
  destruct (argv_h argv); cbn [negb andb];
    [intros _; split_and!; [done..|]; by intros d Hh|].
  destruct (argv_inputDir argv) as [searchDir|];
    [|intros _; split_and!; [done..|]; by intros d _ Hd].
  intros Hx. rewrite Hx. cbn [negb]. split_and!; [done..| |].
  - by intros [Hh|Hd].
  - intros d _ Hd. injection Hd as <-. by rewrite Hx.
Qed.

(** X13.  If [main] gets past its early returns, the first call it makes is
    [glob] in batch mode and [chokidar.watch] in watch mode, on the pattern
    built from the input directory and with the ignore option only if it is
    a non-empty string; every later call is the start of a render or a call
    of a pipeline, so neither of the two is ever called again, the other one
    is never called, and the help is never shown. *)
Theorem main_mode_call_first argv sched actions s :
  passes_guards argv s = true →
  ∃ rest,
    calls (main argv sched actions s) = calls s ++ mode_call argv :: rest ∧
    Forall work_call rest.
Proof.
  intros Hg. destruct (main_shape argv sched actions s) as (new & Hc & Hn).
  rewrite Hg in Hn. destruct Hn as (rest & -> & Hw). by exists rest.
Qed.

(** X14.  In every run of [main] the generation engine is only ever called
    with rendered text: the empty sequence of the suppression branch of
    [readSass] never reaches it. *)
Theorem main_creates_from_text argv sched actions s :
  ∃ new,
    calls (main argv sched actions s) = calls s ++ new ∧
    ∀ creator pathName content cache,
      CCreate creator pathName content cache ∈ new →
      ∃ css, content = Css css.
Proof.
  destruct (main_shape argv sched actions s) as (new & Hc & Hn).
  exists new. split; [done|]. intros creator pathName content cache Hin.
  destruct (passes_guards argv s).
  - destruct Hn as (rest & -> & Hw).
    apply elem_of_cons in Hin as [Hin|Hin].
    + unfold mode_call in Hin. by destruct (argv_w argv).
    + by eapply work_call_no_create_empty.
  - destruct Hn as [[[-> | ->] _] | [-> _]].
    + by apply elem_of_nil in Hin.
    + apply list_elem_of_singleton in Hin. done.
    + by apply elem_of_nil in Hin.
Qed.

(** X15.  In watch mode the line ["Watching PATTERN ..."] is the first
    thing [main] prints; whatever the pipelines print comes after it. *)
Theorem main_watch_announces argv sched actions s searchDir :
  argv_h argv = false →
  argv_inputDir argv = Some searchDir →
  fs_existsSync searchDir (world (env s)) = true →
  argv_w argv = true →
  ∃ out,
    console (env (main argv sched actions s))
    = console (env s) ++
        (Info,
         Text ("Watching " +:+ files_pattern searchDir (argv_p argv)
               +:+ " ..." +:+ nl)) :: out.
Proof.
  intros Hh Hd He Hw. unfold main. rewrite Hh, Hd, He, Hw. cbn [negb].
  match goal with
  | |- context [watch_session ?c ?f ?v ?a ?st] =>
      destruct (watch_session_more c f v a st)
        as (_ & (_ & _ & (out & Hcon) & _) & _)
  end.
  cbv zeta in Hcon. exists out. rewrite Hcon. simpl.
  by rewrite <- app_assoc.
Qed.

(** ** What is printed, and what does not depend on the schedule *)

Lemma echo_warnings pathName (l : list string) :
  omap echo ((λ m, CHandleWarning (warning_message pathName m)) <$> l)
  = (λ m, (Warn, Text (warning_message pathName m))) <$> l.
Proof. induction l; simpl; by f_equal. Qed.

Lemma is_report_warnings pathName (l : list string) :
  List.filter is_report
    ((λ m, (Warn, Text (warning_message pathName m))) <$> l)
  = (λ m, (Warn, Text (warning_message pathName m))) <$> l.
Proof. induction l; simpl; by f_equal. Qed.

Section Echo.
Variables (pathName : string) (creator : Creator) (cache : bool)
  (verbose : bool) (k : nat).

Local Abbreviation cstep :=
  (task_step pathName creator cache (handleError k) (handleWarning k)
     verbose).

Lemma cstep_echoed cs0 con0 t s :
  echoed cs0 con0 s → echoed cs0 con0 (cstep t s).2.
Proof.
  intros (new & out & Hc & Hcon & He).
  assert (∀ s' delta out',
    calls s' = calls s ++ delta →
    console (env s') = console (env s) ++ out' →
    List.filter is_report out' = omap echo delta →
    echoed cs0 con0 s') as Hupd.
  { intros s' delta out' Hc' Hcon' He'. exists (new ++ delta), (out ++ out').
    rewrite Hc', Hc, Hcon', Hcon, <- !app_assoc, List.filter_app, omap_app,
      He, He'. done. }
  destruct t as [|content|c|c|reason|v|reason|].
  - unfold task_step, readSass_settle.
    destruct (sass_render _ _) as [[r|css] w]; simpl;
      apply (Hupd _ [] []); by rewrite ?app_nil_r.
  - unfold task_step, then_create, bind, log_call, ext. simpl.
    destruct (creator_create _ _ _ _ _) as [[r|d] w]; simpl;
      apply (Hupd _ [CCreate creator pathName content cache] []);
      by rewrite ?app_nil_r.
  - unfold task_step, then_writeFile, bind, log_call, ext. simpl.
    destruct (draft_writeFile _ _) as [[r|d] w]; simpl;
      apply (Hupd _ [CWriteFile c] []); by rewrite ?app_nil_r.
  - rewrite cstep_report. eapply Hupd; simpl; [done|done|].
    rewrite List.filter_app, is_report_warnings, echo_warnings.
    unfold created_line. by destruct verbose.
  - rewrite cstep_catch. eapply Hupd; simpl; done.
  - apply (Hupd _ [] []); by rewrite ?app_nil_r.
  - apply (Hupd _ [] []); by rewrite ?app_nil_r.
  - apply (Hupd _ [] []); by rewrite ?app_nil_r.
Qed.

End Echo.

Lemma batch_run_echoed creator cache verbose k cs0 con0 sched b :
  echoed cs0 con0 (b_state b) →
  echoed cs0 con0 (b_state (batch_run creator cache verbose k sched b)).
Proof.
  revert b. induction sched as [|i sched IH]; intros b Hb; [done|].
  simpl. apply IH. unfold batch_step.
  destruct (b_tasks b !! i) as [[p t]|]; [|done].
  pose proof (cstep_echoed p creator cache verbose k cs0 con0 t (b_state b)
    Hb) as He.
  by destruct (task_step _ _ _ _ _ _ _ _).
Qed.

(** X16.  In a batch every call of a handler is printed, and nothing else
    is printed with [console.warn] or [console.error]: the warning and
    error lines on the console are the messages handed to the handlers, in
    the order of the calls.  So the numbers of the summary are the numbers
    of the lines above it. *)
Theorem createTypingsForFiles_prints_what_it_counts creator cache verbose
    pathNames sched s :
  ∃ new out,
    calls (createTypingsForFiles creator cache verbose pathNames sched s).2
    = calls s ++ new ∧
    console
      (env (createTypingsForFiles creator cache verbose pathNames sched s).2)
    = console (env s) ++ out ∧
    List.filter is_report out = omap echo new.
Proof.
  rewrite createTypingsForFiles_eq. cbn [snd].
  assert (echoed (calls s) (console (env s))
    (b_state (batch_settle creator cache verbose pathNames sched s).2))
    as (new & out & Hc & Hcon & He).
  { unfold batch_settle, new_counters. cbn [snd].
    apply batch_run_echoed. rewrite batch_launch_eq. simpl.
    exists (CSassRender <$> pathNames), []. rewrite app_nil_r.
    split_and!; [done..|]. simpl. induction pathNames; simpl; done. }
  exists new,
    (out ++
     files_summary
       (read_counters (length (cycles (env s)))
          (env
             (b_state
                (batch_settle creator cache verbose pathNames sched s).2)))).
  rewrite onComplete_files_calls, onComplete_files_console, Hcon,
    <- app_assoc, List.filter_app, He.
  split_and!; [done..|]. unfold files_summary.
  destruct (0 <? _); simpl; by rewrite app_nil_r.
Qed.

Section Course.
Variables (creator : Creator) (cache : bool) (verbose : bool) (k : nat).
Variables (R : string → Reason + string)
  (G : string → Content → Reason + Draft) (Wf : Draft → Reason + Artifact).
Hypothesis render_pure : ∀ p w, (sass_render p w).1 = R p.
Hypothesis create_pure :
  ∀ p content w, (creator_create creator p content cache w).1 = G p content.
Hypothesis write_pure : ∀ d w, (draft_writeFile d w).1 = Wf d.

Lemma cstep_on_course p t s :
  on_course R G Wf (p, t) →
  on_course R G Wf
    (p, (task_step p creator cache (handleError k) (handleWarning k) verbose
           t s).1).
Proof using render_pure create_pure write_pure.
  unfold on_course, outcome. cbn [fst snd].
  destruct t as [|content|c|c|reason|v|reason|]; try done.
  - intros _. unfold task_step, readSass_settle.
    pose proof (render_pure p (world (env s))) as Hr.
    destruct (sass_render _ _) as [[r|css] w]; simpl in *; rewrite <- Hr;
      eauto.
  - intros (css & Hr & ->).
    unfold task_step, then_create, bind, log_call, ext. simpl.
    pose proof (create_pure p (Css css) (world (env s))) as Hc.
    destruct (creator_create _ _ _ _ _) as [[r|d] w]; simpl in *.
    + by rewrite Hr, <- Hc.
    + eauto.
  - intros (css & Hr & Hc).
    unfold task_step, then_writeFile, bind, log_call, ext. simpl.
    pose proof (write_pure c (world (env s))) as Hw.
    destruct (draft_writeFile _ _) as [[r|c'] w]; simpl in *;
      by rewrite Hr, Hc, <- Hw.
  - intros Ho. by rewrite cstep_report.
Qed.

Lemma batch_run_on_course sched b :
  Forall (on_course R G Wf) (b_tasks b) →
  Forall (on_course R G Wf)
    (b_tasks (batch_run creator cache verbose k sched b)).
Proof using render_pure create_pure write_pure.
  revert b. induction sched as [|i sched IH]; intros b Hb; [done|].
  simpl. apply IH. unfold batch_step.
  destruct (b_tasks b !! i) as [[p t]|] eqn:Hi; [|done].
  pose proof (cstep_on_course p t (b_state b)
    (Forall_lookup_1 _ _ _ _ Hb Hi)) as Ho.
  destruct (task_step _ _ _ _ _ _ _ _) as [t' s']. cbn [b_tasks fst] in *.
  by apply Forall_insert.
Qed.

End Course.

(** X17.  If what render, generation and persist return does not depend on
    the state of the world, every promise of a batch is resolved with what
    its own file leads to, the artifact or nothing, whatever the schedule
    and whatever happens to the other files. *)
Theorem createTypingsForFiles_schedule_free creator cache verbose pathNames
    sched s R G Wf :
  (∀ p w, (sass_render p w).1 = R p) →
  (∀ p content w, (creator_create creator p content cache w).1 = G p content) →
  (∀ d w, (draft_writeFile d w).1 = Wf d) →
  b_tasks (batch_settle creator cache verbose pathNames sched s).2
  = (λ p, (p, Resolved (outcome R G Wf p))) <$> pathNames.
Proof.
  intros Hr Hc Hw.
  destruct (batch_settle_spec creator cache verbose pathNames sched s)
    as (b & Hb & (Hp & _) & Hres).
  assert (Forall (on_course R G Wf) (b_tasks b)) as Ho.
  { unfold batch_settle, new_counters in Hb. injection Hb as <-.
    apply batch_run_on_course; [done..|]. rewrite batch_launch_eq. simpl.
    apply Forall_fmap, Forall_true. done. }
  rewrite Hb. cbn [snd]. rewrite <- Hp. clear Hp Hb.
  induction (b_tasks b) as [|[p t] ts IH]; [done|].
  rewrite fmap_cons, Forall_cons in Hres. destruct Hres as [[Ha Hk] Hres].
  apply Forall_cons in Ho as [Hpt Ho].
  rewrite !fmap_cons. simpl. rewrite <- IH by done. f_equal.
  unfold on_course in Hpt. cbn [fst snd] in Hpt.
  destruct t; try done. by rewrite Hpt.
Qed.

(** ** More on what is printed *)

Lemma watch_run_echoed creator cache verbose cs0 con0 actions w :
  echoed cs0 con0 (w_state w) →
  echoed cs0 con0 (w_state (watch_run creator cache verbose actions w)).
Proof.
  revert w. induction actions as [|a l IH]; intros w Hw; [done|].
  simpl. apply IH. clear IH.
  assert (∀ p, echoed cs0 con0
    (w_state (createTypingsForFileOnWatch creator cache verbose p w)))
    as Hfire.
  { intros p. destruct Hw as (new & out & Hc & Hcon & He).
    unfold createTypingsForFileOnWatch, new_counters, createTypings.
    cbn [w_state]. exists (new ++ [CSassRender p]), out. simpl.
    rewrite Hc, <- app_assoc, omap_app. simpl. by rewrite app_nil_r. }
  destruct a as [[] p|i]; [apply Hfire..|]. simpl. unfold watch_turn.
  destruct (w_acts w !! i) as [a|]; [|done].
  destruct (a_done a); [done|].
  pose proof (cstep_echoed (a_path a) creator cache verbose (a_cycle a) cs0
    con0 (a_task a) (w_state w) Hw) as Hstep.
  destruct (a_task a) as [| | | | |v| |];
    try (destruct (task_step _ _ _ _ _ _ _ _); exact Hstep).
  cbn [w_state]. destruct Hw as (new & out & Hc & Hcon & He).
  exists new,
    (out ++
     watch_summary (a_path a)
       (read_counters (a_cycle a) (env (w_state w)))).
  rewrite onComplete_watch_console, Hcon, <- app_assoc, List.filter_app, He.
  split_and!; [done..|]. unfold watch_summary.
  destruct (0 <? _); simpl; by rewrite app_nil_r.
Qed.

(** X18.  In a watch session, too, every call of a handler is printed and
    nothing else is printed with [console.warn] or [console.error]: the
    warning and error lines on the console are the messages handed to the
    handlers, in the order of the calls. *)
Theorem watch_session_prints_what_it_counts creator cache verbose actions s :
  ∃ new out,
    calls (w_state (watch_session creator cache verbose actions s))
    = calls s ++ new ∧
    console (env (w_state (watch_session creator cache verbose actions s)))
    = console (env s) ++ out ∧
    List.filter is_report out = omap echo new.
Proof.
  unfold watch_session. apply watch_run_echoed, watch_run_echoed.
  exists [], []. by rewrite !app_nil_r.
Qed.

Section Created.
Variables (creator : Creator) (cache : bool) (verbose : bool) (k : nat).

(** What a batch has printed with [console.info] before its summary is, in
    some order, the ["Created ..."] lines of its promises. *)
Lemma batch_run_created con0 sched b :
  (∃ out,
     console (env (b_state b)) = con0 ++ out ∧
     List.filter is_info out
     ≡ₚ b_tasks b ≫= (λ pt, created_of verbose pt.2)) →
  ∃ out,
    console (env (b_state (batch_run creator cache verbose k sched b)))
    = con0 ++ out ∧
    List.filter is_info out
    ≡ₚ b_tasks (batch_run creator cache verbose k sched b)
       ≫= (λ pt, created_of verbose pt.2).
Proof.
  revert b. induction sched as [|i sched IH]; intros b Hb; [done|].
  simpl. apply IH. clear IH. destruct Hb as (out & Hcon & Hp).
  unfold batch_step.
  destruct (b_tasks b !! i) as [[p t]|] eqn:Hi; [|by exists out].
  destruct (cstep_info p creator cache verbose k t (b_state b))
    as (out' & Hcon' & Hc').
  destruct (task_step _ _ _ _ _ _ _ _) as [t' s'].
  cbn [b_tasks b_state fst snd] in *.
  exists (out ++ out'). rewrite Hcon', Hcon, <- app_assoc, List.filter_app.
  split; [done|].
  rewrite (bind_insert_perm (λ pt : string * Task, created_of verbose pt.2)
             _ i (p, t) (p, t') (List.filter is_info out') Hi).
  - by rewrite Hp.
  - simpl. by rewrite Hc'.
Qed.

End Created.

(** X19.  What a batch prints with [console.info]: in some order, for each
    promise resolved with an artifact its ["Created ..."] line, if [verbose]
    is set, and nothing for any other promise; and then, last on the
    console, the summary, if there is one.  So a file that fails is never
    announced as created, and a file that succeeds is announced exactly
    once, with the path its artifact was written to. *)
Theorem createTypingsForFiles_created_lines creator cache verbose pathNames
    sched s :
  let kb := batch_settle creator cache verbose pathNames sched s in
  ∃ out,
    console
      (env (createTypingsForFiles creator cache verbose pathNames sched s).2)
    = console (env s) ++ out
      ++ files_summary (read_counters kb.1 (env (b_state kb.2))) ∧
    List.filter is_info out
    ≡ₚ b_tasks kb.2 ≫= (λ pt,
         match pt.2 with
         | Resolved (Some c) =>
             if verbose then
               [(Info, Text ("Created " +:+ chalk_green (outputFilePath c)))]
             else []
         | _ => []
         end).
Proof.
  cbv zeta. rewrite createTypingsForFiles_eq. cbn [snd].
  destruct (batch_settle_spec creator cache verbose pathNames sched s)
    as (b & Hb & _).
  assert (∃ out,
    console (env (b_state b)) = console (env s) ++ out ∧
    List.filter is_info out
    ≡ₚ b_tasks b ≫= (λ pt, created_of verbose pt.2))
    as (out & Hcon & Hp).
  { unfold batch_settle, new_counters in Hb. injection Hb as <-.
    apply batch_run_created. rewrite batch_launch_eq. simpl.
    exists []. rewrite app_nil_r. split; [done|].
    induction pathNames as [|p l IH]; [done|].
    rewrite fmap_cons, bind_cons. simpl. exact IH. }
  rewrite Hb. cbn [fst snd].
  exists out. rewrite onComplete_files_console, Hcon, <- app_assoc.
  split; [done|]. rewrite Hp. clear.
  induction (b_tasks b) as [|[p t] l IH]; [done|].
  rewrite !bind_cons, IH. apply Permutation_app_tail.
  unfold created_of, created_line. simpl.
  by destruct t as [| | | | |[c|]| |].
Qed.

End Further.

(** * The model at work on the concrete collaborators *)

#[local] Existing Instance Demo.externals.

Lemma readSass_failure_policy_witness :
  sass_render (Externals:=Demo.externals) "B.scss" (world (env Demo.s0))
  = (inl "Error: unclosed block", []) ∧
  (readSass (H:=Demo.externals) "B.scss" None Demo.s0).1
  = @Reject Demo.externals "Error: unclosed block" ∧
  (readSass (H:=Demo.externals) "B.scss" (Some "/") Demo.s0).1
  = @Reject Demo.externals "Error: unclosed block" ∧
  (readSass (H:=Demo.externals) "B.scss" (Some "partials") Demo.s0).1
  = Resolve EmptySeq.
Proof.
  assert (sass_render (Externals:=Demo.externals) "B.scss"
            (world (env Demo.s0))
          = (inl "Error: unclosed block", [])) as Hr by reflexivity.
  split; [exact Hr|].
  pose proof (proj1 (readSass_failure_policy (H:=Demo.externals) "B.scss"
    None Demo.s0 "Error: unclosed block" [] Hr) (or_introl eq_refl)) as H1.
  pose proof (proj1 (readSass_failure_policy (H:=Demo.externals) "B.scss"
    (Some "/") Demo.s0 "Error: unclosed block" [] Hr) (or_intror eq_refl))
    as H2.
  assert (Some "partials" ≠ Some "/") as Hne by discriminate.
  pose proof (proj2 (readSass_failure_policy (H:=Demo.externals) "B.scss"
    (Some "partials") Demo.s0 "Error: unclosed block" [] Hr) eq_refl Hne)
    as H3.
  split; [by rewrite H1|]. split; [by rewrite H2|]. by rewrite H3.
Defined.

Lemma createTypings_absorbs_failure_witness :
  returns (H:=Demo.externals) (handleError 0) ∧
  pipeline_fails_leaving (H:=Demo.externals) "B.scss" Demo.creator false
    (world (env Demo.s0)) "Error: unclosed block" [] ∧
  (createTypings_await (H:=Demo.externals) "B.scss" Demo.creator false
     (handleError 0) Demo.silent false Demo.s0).1
  = Resolved None ∧
  console
    (env
       (createTypings_await (H:=Demo.externals) "B.scss" Demo.creator false
          (handleError 0) Demo.silent false Demo.s0).2)
  = [(Error, Text ("ERROR: B.scss" +:+ nl +:+ "Error: unclosed block"))].
Proof.
  assert (returns (H:=Demo.externals) (handleError 0)) as Hh
    by (intros m e; reflexivity).
  assert (pipeline_fails_leaving (H:=Demo.externals) "B.scss" Demo.creator
            false (world (env Demo.s0)) "Error: unclosed block" []) as Hf
    by (eapply render_fails_leaving; reflexivity).
  split; [exact Hh|]. split; [exact Hf|].
  destruct (createTypings_absorbs_failure (H:=Demo.externals) "B.scss"
    Demo.creator false (handleError 0) Demo.silent false Demo.s0
    "Error: unclosed block" [] Hh Hf) as (Hres & Henv & _).
  split; [exact Hres|]. rewrite Henv. reflexivity.
Defined.

Lemma createTypings_clean_success_witness :
  pipeline_succeeds (H:=Demo.externals) "F.scss" Demo.creator false
    (world (env Demo.s0))
    {| outputFilePath := "F.scss.d.ts"; messageList := Some [] |}
    ["F.scss.d.ts"] ∧
  messages {| outputFilePath := "F.scss.d.ts"; messageList := Some [] |}
  = [] ∧
  (createTypings_await (H:=Demo.externals) "F.scss" Demo.creator false
     Demo.broken Demo.broken true Demo.s0).1
  = Resolved
      (Some {| outputFilePath := "F.scss.d.ts"; messageList := Some [] |}) ∧
  world
    (env
       (createTypings_await (H:=Demo.externals) "F.scss" Demo.creator false
          Demo.broken Demo.broken true Demo.s0).2)
  = ["F.scss.d.ts"].
Proof.
  assert (pipeline_succeeds (H:=Demo.externals) "F.scss" Demo.creator false
            (world (env Demo.s0))
            {| outputFilePath := "F.scss.d.ts"; messageList := Some [] |}
            ["F.scss.d.ts"]) as Hs.
  { exists ".a{}", [], "F.scss", []. repeat split; reflexivity. }
  split; [exact Hs|]. split; [reflexivity|].
  destruct (createTypings_clean_success (H:=Demo.externals) "F.scss"
    Demo.creator false Demo.broken Demo.broken true Demo.s0 _ _ Hs eq_refl)
    as (Hres & Henv & _).
  split; [exact Hres|]. rewrite Henv. reflexivity.
Defined.

Lemma createTypings_reports_warnings_witness :
  (createTypings_await (H:=Demo.externals) "A.scss" Demo.creator false
     Demo.silent (handleWarning 0) false Demo.s0).1
  = Resolved
      (Some {| outputFilePath := "A.scss.d.ts";
               messageList :=
                 Some ["a-b is not valid"; "c-d is not valid"] |}) ∧
  console
    (env
       (createTypings_await (H:=Demo.externals) "A.scss" Demo.creator false
          Demo.silent (handleWarning 0) false Demo.s0).2)
  = [(Warn, Text ("WARNING: A.scss" +:+ nl +:+ "a-b is not valid"));
     (Warn, Text ("WARNING: A.scss" +:+ nl +:+ "c-d is not valid"))].
Proof.
  split; [reflexivity|].
  destruct (createTypings_reports_warnings (H:=Demo.externals) "A.scss"
    Demo.creator false Demo.silent (handleWarning 0) false Demo.s0 _ _
    eq_refl eq_refl) as (_ & w' & _ & Henv).
  rewrite Henv. reflexivity.
Defined.

Lemma createTypings_without_messageList_witness :
  pipeline_succeeds (H:=Demo.externals) "C.scss" Demo.creator false
    (world (env Demo.s0))
    {| outputFilePath := "C.scss.d.ts"; messageList := None |}
    ["C.scss.d.ts"] ∧
  (createTypings_await (H:=Demo.externals) "C.scss" Demo.creator false
     Demo.silent Demo.silent false Demo.s0).1
  = Resolved (Some {| outputFilePath := "C.scss.d.ts"; messageList := None |}).
Proof.
  assert (pipeline_succeeds (H:=Demo.externals) "C.scss" Demo.creator false
            (world (env Demo.s0))
            {| outputFilePath := "C.scss.d.ts"; messageList := None |}
            ["C.scss.d.ts"]) as Hs.
  { exists ".a{}", [], "C.scss", []. repeat split; reflexivity. }
  split; [exact Hs|].
  exact (proj1 (createTypings_without_messageList (H:=Demo.externals)
    "C.scss" Demo.creator false Demo.silent Demo.silent false Demo.s0 _ _ Hs
    eq_refl)).
Defined.

Lemma watch_counters_per_event_witness :
  let actions := [Fire Add "A.scss"; Turn 0; Turn 0; Turn 0; Turn 0] in
  let c :=
    {| outputFilePath := "A.scss.d.ts";
       messageList := Some ["a-b is not valid"; "c-d is not valid"] |} in
  let a :=
    {| a_path := "A.scss"; a_cycle := 0; a_task := Resolved (Some c);
       a_done := false |} in
  let w :=
    watch_run (H:=Demo.externals) Demo.creator true false actions
      {| w_acts := []; w_state := Demo.s0 |} in
  w_acts w !! 0 = Some a ∧
  read_counters (a_cycle a) (env (w_state w))
  = {| warnings := 2; errors := 0 |} ∧
  console (env (w_state (watch_turn Demo.creator true false 0 w)))
  = console (env (w_state w)) ++
      [(Info, Text "A.scss: 2 warnings, 0 errors")].
Proof.
  intros actions c a w.
  assert (w_acts w !! 0 = Some a) as Hi by reflexivity.
  split; [exact Hi|].
  pose proof (watch_counters_per_event (H:=Demo.externals) Demo.creator true
    false actions Demo.s0 0 a (Some c) Hi eq_refl eq_refl) as (Hc & Hl & _).
  split; [exact Hc|exact Hl].
Defined.

Lemma main_batch_mode_witness :
  fs_existsSync (Externals:=Demo.externals) "src" (world (env Demo.s0))
  = true ∧
  glob_expand (Externals:=Demo.externals) "src/*.scss" None
    (world (env Demo.s0))
  = (None, Some ["A.scss"; "B.scss"], []) ∧
  ∃ rest,
    calls (main (H:=Demo.externals) (Demo.argv "src" false) [] [] Demo.s0)
    = calls Demo.s0 ++ CGlob "src/*.scss" None :: rest ∧
    List.filter is_render rest = [CSassRender "A.scss"; CSassRender "B.scss"].
Proof.
  split; [reflexivity|]. split; [reflexivity|].
  exact (proj2 (main_batch_mode (H:=Demo.externals) (Demo.argv "src" false)
    [] [] Demo.s0 "src" None (Some ["A.scss"; "B.scss"]) [] eq_refl eq_refl
    eq_refl eq_refl eq_refl)).
Defined.

(** The scenario of the specification: [A.scss] with two warnings is
    processed, then [B.scss] with no warning and one error.  The summaries
    are per file, not cumulative. *)
Example watch_A_then_B :
  List.filter (λ line, match line.1 with Info => true | _ => false end)
    (console
       (env
          (w_state
             (watch_session (H:=Demo.externals) Demo.creator true false
                [Fire Add "A.scss"; Turn 0; Turn 0; Turn 0; Turn 0; Turn 0;
                 Fire Change "B.scss"]
                Demo.s0))))
  = [(Info, Text "A.scss: 2 warnings, 0 errors");
     (Info, Text "B.scss: 0 warnings, 1 errors")].
Proof. reflexivity. Qed.

(** The same two events with the callbacks of [B.scss] served first: the
    summaries change places, their numbers do not. *)
Example watch_B_overtakes_A :
  List.filter (λ line, match line.1 with Info => true | _ => false end)
    (console
       (env
          (w_state
             (watch_session (H:=Demo.externals) Demo.creator true false
                [Fire Add "A.scss"; Fire Change "B.scss"; Turn 1; Turn 1;
                 Turn 1]
                Demo.s0))))
  = [(Info, Text "B.scss: 0 warnings, 1 errors");
     (Info, Text "A.scss: 2 warnings, 0 errors")].
Proof. reflexivity. Qed.

(** A batch of five files, three of which fail at a different step. *)
Example batch_of_five :
  let r :=
    createTypingsForFiles (H:=Demo.externals) Demo.creator false false
      ["A.scss"; "B.scss"; "C.scss"; "D.scss"; "E.scss"] [4; 3; 2; 0; 4]
      Demo.s0 in
  r.1 = AllResolved ∧
  last (console (env r.2))
  = Some (Info, Text "Completed with 2 warnings and 3 errors.") ∧
  world (env r.2) = ["A.scss.d.ts"; "C.scss.d.ts"].
Proof. repeat split; reflexivity. Qed.

(** In watch mode the generation engine is called with the cache flag set. *)
Example main_watch_cache :
  List.filter (λ c, match c with CCreate _ _ _ _ => true | _ => false end)
    (calls
       (main (H:=Demo.externals) (Demo.argv "src" true) []
          [Fire Add "A.scss"] Demo.s0))
  = [CCreate
       {| rootDir := "/repo"; searchDir := "src"; outDir := None;
          camelCase := false; dropExtension := false |}
       "A.scss" (Css ".a{}") true].
Proof. reflexivity. Qed.

(** ** The further properties at work *)

Lemma createTypings_rejects_if_handleError_throws_witness :
  pipeline_fails (H:=Demo.externals) "B.scss" Demo.creator false
    (world (env Demo.s0)) "Error: unclosed block" ∧
  throws_on (H:=Demo.externals) Demo.broken
    (error_message "B.scss" "Error: unclosed block") "TypeError: h" ∧
  (createTypings_await (H:=Demo.externals) "B.scss" Demo.creator false
     Demo.broken Demo.silent false Demo.s0).1
  = Rejected "TypeError: h".
Proof.
  assert (pipeline_fails (H:=Demo.externals) "B.scss" Demo.creator false
            (world (env Demo.s0)) "Error: unclosed block") as Hf
    by (eapply render_fails; reflexivity).
  assert (throws_on (H:=Demo.externals) Demo.broken
            (error_message "B.scss" "Error: unclosed block") "TypeError: h")
    as Hh by (intros e; reflexivity).
  split; [exact Hf|]. split; [exact Hh|].
  exact (proj1 (createTypings_rejects_if_handleError_throws
    (H:=Demo.externals) "B.scss" Demo.creator false Demo.broken Demo.silent
    false Demo.s0 "Error: unclosed block" "TypeError: h" Hf Hh)).
Defined.

Lemma createTypings_handleWarning_throws_witness :
  let c :=
    {| outputFilePath := "A.scss.d.ts";
       messageList := Some ["a-b is not valid"; "c-d is not valid"] |} in
  pipeline_succeeds (H:=Demo.externals) "A.scss" Demo.creator false
    (world (env Demo.s0)) c ["A.scss.d.ts"] ∧
  throws_on (H:=Demo.externals) Demo.broken
    (warning_message "A.scss" "a-b is not valid") "TypeError: h" ∧
  returns (H:=Demo.externals) Demo.silent ∧
  (createTypings_await (H:=Demo.externals) "A.scss" Demo.creator false
     Demo.silent Demo.broken false Demo.s0).1
  = Resolved None.
Proof.
  intros c.
  assert (pipeline_succeeds (H:=Demo.externals) "A.scss" Demo.creator false
            (world (env Demo.s0)) c ["A.scss.d.ts"]) as Hs.
  { exists ".a{}", [], "A.scss", []. repeat split; reflexivity. }
  assert (throws_on (H:=Demo.externals) Demo.broken
            (warning_message "A.scss" "a-b is not valid") "TypeError: h")
    as Hw by (intros e; reflexivity).
  assert (returns (H:=Demo.externals) Demo.silent) as Hr
    by (intros m e; reflexivity).
  split; [exact Hs|]. split; [exact Hw|]. split; [exact Hr|].
  exact (proj1 (createTypings_handleWarning_throws (H:=Demo.externals)
    "A.scss" Demo.creator false Demo.silent Demo.broken false Demo.s0 c
    ["A.scss.d.ts"] "a-b is not valid" ["c-d is not valid"] "TypeError: h"
    Hs eq_refl Hw Hr)).
Defined.

Lemma main_stops_at_guards_witness :
  (passes_guards (H:=Demo.externals) (Demo.argv "missing" true) Demo.s0
   = false ∧
   calls (main (H:=Demo.externals) (Demo.argv "missing" true) []
            [Fire Add "A.scss"] Demo.s0)
   = [] ∧
   console (env (main (H:=Demo.externals) (Demo.argv "missing" true) []
                   [Fire Add "A.scss"] Demo.s0))
   = [(Error, Text "Error: Input directory missing doesn't exist.")]) ∧
  (let help :=
     {| argv_h := true; argv_inputDir := Some "src"; argv_c := false;
        argv_o := None; argv_p := "*.scss"; argv_w := false;
        argv_d := false; argv_v := true; argv_i := None |} in
   passes_guards (H:=Demo.externals) help Demo.s0 = false ∧
   calls (main (H:=Demo.externals) help [] [] Demo.s0) = [CShowHelp] ∧
   console (env (main (H:=Demo.externals) help [] [] Demo.s0)) = []).
Proof.
  split.
  - split; [reflexivity|].
    destruct (main_stops_at_guards (H:=Demo.externals)
      (Demo.argv "missing" true) [] [Fire Add "A.scss"] Demo.s0 eq_refl)
      as (_ & _ & _ & Hd).
    destruct (Hd "missing" eq_refl eq_refl) as (_ & Hc & Hcon).
    split; [exact Hc|exact Hcon].
  - cbv zeta. split; [reflexivity|].
    destruct (main_stops_at_guards (H:=Demo.externals)
      {| argv_h := true; argv_inputDir := Some "src"; argv_c := false;
         argv_o := None; argv_p := "*.scss"; argv_w := false;
         argv_d := false; argv_v := true; argv_i := None |}
      [] [] Demo.s0 eq_refl) as (_ & _ & Hh & _).
    exact (Hh (or_introl eq_refl)).
Defined.

Lemma main_mode_call_first_witness :
  passes_guards (H:=Demo.externals) (Demo.argv "src" true) Demo.s0 = true ∧
  ∃ rest,
    calls (main (H:=Demo.externals) (Demo.argv "src" true) []
             [Fire Add "A.scss"] Demo.s0)
    = calls Demo.s0 ++ CWatch "src/*.scss" None :: rest ∧
    Forall work_call rest.
Proof.
  split; [reflexivity|].
  exact (main_mode_call_first (H:=Demo.externals) (Demo.argv "src" true) []
    [Fire Add "A.scss"] Demo.s0 eq_refl).
Defined.

Lemma main_watch_announces_witness :
  fs_existsSync (Externals:=Demo.externals) "src" (world (env Demo.s0))
  = true ∧
  ∃ out,
    console (env (main (H:=Demo.externals) (Demo.argv "src" true) []
                    [Fire Add "A.scss"] Demo.s0))
    = console (env Demo.s0) ++
        (Info, Text ("Watching src/*.scss ..." +:+ nl)) :: out.
Proof.
  split; [reflexivity|].
  exact (main_watch_announces (H:=Demo.externals) (Demo.argv "src" true) []
    [Fire Add "A.scss"] Demo.s0 "src" eq_refl eq_refl eq_refl eq_refl).
Defined.

Lemma createTypingsForFiles_schedule_free_witness :
  let R := λ p, (Demo.render p []).1 in
  let G := λ p content, (Demo.create Demo.creator p content false []).1 in
  let Wf := λ d, (Demo.writeFile d []).1 in
  (∀ p w, (sass_render (Externals:=Demo.externals) p w).1 = R p) ∧
  (∀ p content w,
     (creator_create (Externals:=Demo.externals) Demo.creator p content false
        w).1 = G p content) ∧
  (∀ d w, (draft_writeFile (Externals:=Demo.externals) d w).1 = Wf d) ∧
  b_tasks
    (batch_settle (H:=Demo.externals) Demo.creator false false
       ["A.scss"; "B.scss"] [1; 0; 1] Demo.s0).2
  = [("A.scss",
      Resolved
        (Some {| outputFilePath := "A.scss.d.ts";
                 messageList :=
                   Some ["a-b is not valid"; "c-d is not valid"] |}));
     ("B.scss", Resolved None)].
Proof.
  intros R G Wf.
  assert (∀ p w, (sass_render (Externals:=Demo.externals) p w).1 = R p)
    as Hr.
  { intros p w. subst R. simpl. unfold Demo.render.
    destruct (String.eqb p "B.scss"); reflexivity. }
  assert (∀ p content w,
    (creator_create (Externals:=Demo.externals) Demo.creator p content false
       w).1 = G p content) as Hc.
  { intros p content w. subst G. simpl. unfold Demo.create.
    destruct (String.eqb p "D.scss"); reflexivity. }
  assert (∀ d w, (draft_writeFile (Externals:=Demo.externals) d w).1 = Wf d)
    as Hw.
  { intros d w. subst Wf. simpl. unfold Demo.writeFile.
    destruct (String.eqb d "E.scss"); reflexivity. }
  split; [exact Hr|]. split; [exact Hc|]. split; [exact Hw|].
  exact (createTypingsForFiles_schedule_free (H:=Demo.externals) Demo.creator
    false false ["A.scss"; "B.scss"] [1; 0; 1] Demo.s0 R G Wf Hr Hc Hw).
Defined.
